(** * tinygba: Mode 0 tile/tilemap access and the keyboard glyph compositor

    Shallow embedding of [tiles.go] (package tinygba) and of the
    glyph compositor [glyphQuarterTiles] of the tiled keyboard example.

    Every hardware access in [tiles.go] goes through a volatile 16-bit
    store ([mem16(addr).Set(v)] or [gba.X.Set(v)]).  An operation is
    therefore modelled as the ordered list of the 16-bit stores it
    performs; [run] replays such a trace on a byte-addressed memory
    (the GBA is little-endian).  Go's fixed-width integers are [Z] with
    their wrap-around written out ([u8], [u16]).  Addresses are [uintptr]
    (32 bits on the GBA); with [uint8]/[uint16] operands no address
    computation of this file comes near 2^32, so none is reduced. *)

From Stdlib Require Import String Ascii.
From Stdlib Require Import ZArith List Bool Lia.
Import ListNotations.
Open Scope Z_scope.

(** ** Go integer types *)

Definition u8 (x : Z) : Z := x mod 2 ^ 8.
Definition u16 (x : Z) : Z := x mod 2 ^ 16.

(** ** Hardware locations and the store trace *)

(** The registers of [device/gba] used by [tiles.go], and memory. *)
Inductive loc : Type :=
| DISPCNT                 (* gba.DISP.DISPCNT *)
| BGCNT (layer : Z)       (* gba.BGCNTn.CNT *)
| BGHOFS (layer : Z)      (* gba.BGn.HOFS *)
| BGVOFS (layer : Z)      (* gba.BGn.VOFS *)
| Addr (addr : Z).        (* mem16(addr), palette RAM or VRAM *)

(** One volatile 16-bit store. *)
Definition write := (loc * Z)%type.

Definition memPAL : Z := 83886080.    (* 0x05000000 *)
Definition memVRAM : Z := 100663296.  (* 0x06000000 *)

(** Byte-addressed memory and the little-endian 16-bit store of [mem16]. *)
Definition mem := Z -> Z.

Definition store16 (m : mem) (a v : Z) : mem :=
  fun b => if b =? a then Z.land v 255
           else if b =? a + 1 then Z.land (Z.shiftr v 8) 255
           else m b.

Definition read16 (m : mem) (a : Z) : Z :=
  Z.lor (m a) (Z.shiftl (m (a + 1)) 8).

Definition step (m : mem) (w : write) : mem :=
  match w with
  | (Addr a, v) => store16 m a v
  | _ => m
  end.

Definition run (ws : list write) (m : mem) : mem := fold_left step ws m.

(** ** tiles.go *)

(** [Layer] is a [uint8]; the constants Layer0..Layer3 are 0..3. *)
Definition Layer0 : Z := 0.
Definition Layer1 : Z := 1.
Definition Layer2 : Z := 2.
Definition Layer3 : Z := 3.

(** [ConfigureLayers(layers ...Layer)]: [bits |= 1 << (8 + uint(l))] on a
    [uint16], then a single [DISPCNT.Set(bits)]. *)
Definition ConfigureLayers (layers : list Z) : list write :=
  let bits := fold_left (fun bits l => Z.lor bits (u16 (Z.shiftl 1 (8 + l))))
                        layers 0 in
  [(DISPCNT, bits)].

(** [SetScroll(layer, x, y)]: mask both values to 9 bits, then a switch on
    the layer; a layer outside 0..3 matches no case and writes nothing. *)
Definition SetScroll (layer x y : Z) : list write :=
  let x := Z.land x 511 in
  let y := Z.land y 511 in
  if layer =? Layer0 then [(BGHOFS 0, x); (BGVOFS 0, y)]
  else if layer =? Layer1 then [(BGHOFS 1, x); (BGVOFS 1, y)]
  else if layer =? Layer2 then [(BGHOFS 2, x); (BGVOFS 2, y)]
  else if layer =? Layer3 then [(BGHOFS 3, x); (BGVOFS 3, y)]
  else [].

(** [RGB(r, g, b uint8) uint16 = uint16(r) | uint16(g)<<5 | uint16(b)<<10]. *)
Definition RGB (r g b : Z) : Z :=
  Z.lor (Z.lor (u16 r) (u16 (Z.shiftl (u16 g) 5))) (u16 (Z.shiftl (u16 b) 10)).

(** [SetPaletteColor(palette, index uint8, color uint16)]. *)
Definition SetPaletteColor (palette index color : Z) : list write :=
  let addr := memPAL + palette * 32 + index * 2 in
  [(Addr addr, color)].

(** The loop body of [DefineTile4bpp] / [DefineTile8bpp]:
    [uint16(pixels[i*2]) | uint16(pixels[i*2+1])<<8] stored at [base + i*2]. *)
Definition tile_halfword (pixels : list Z) (i : nat) : Z :=
  Z.lor (u16 (nth (i * 2) pixels 0)) (u16 (Z.shiftl (u16 (nth (i * 2 + 1) pixels 0)) 8)).

(** [DefineTile4bpp(charBlock uint8, tileIndex uint16, pixels [32]byte)]. *)
Definition DefineTile4bpp (charBlock tileIndex : Z) (pixels : list Z) : list write :=
  let base := memVRAM + charBlock * 16384 + tileIndex * 32 in
  map (fun i => (Addr (base + Z.of_nat i * 2), tile_halfword pixels i)) (seq 0 16).

(** [DefineTile8bpp(charBlock uint8, tileIndex uint16, pixels [64]byte)]. *)
Definition DefineTile8bpp (charBlock tileIndex : Z) (pixels : list Z) : list write :=
  let base := memVRAM + charBlock * 16384 + tileIndex * 64 in
  map (fun i => (Addr (base + Z.of_nat i * 2), tile_halfword pixels i)) (seq 0 32).

(** The entry computed by [SetTile]: [entry := tileIndex], the two flip
    bits or-ed in, then [entry |= uint16(palette) << 12] (a [uint16] shift). *)
Definition setTileEntry (tileIndex palette : Z) (flipH flipV : bool) : Z :=
  let entry := tileIndex in
  let entry := if flipH then Z.lor entry (Z.shiftl 1 10) else entry in
  let entry := if flipV then Z.lor entry (Z.shiftl 1 11) else entry in
  Z.lor entry (u16 (Z.shiftl (u16 palette) 12)).

(** [SetTile(screenBlock, x, y uint8, tileIndex uint16, palette uint8,
    flipH, flipV bool)]: no range check, one store. *)
Definition SetTile (screenBlock x y tileIndex palette : Z) (flipH flipV : bool)
  : list write :=
  let addr := memVRAM + screenBlock * 2048 + (y * 32 + x) * 2 in
  [(Addr addr, setTileEntry tileIndex palette flipH flipV)].

(** [FillTiled(screenBlock, x, y, w, h uint8, tileIndex uint16, palette uint8)]:
    row-major double loop with [uint8] counters; [x+col] and [y+row] are
    [uint8] sums. *)
Definition FillTiled (screenBlock x y w h tileIndex palette : Z) : list write :=
  flat_map (fun row =>
    flat_map (fun col =>
      SetTile screenBlock (u8 (x + Z.of_nat col)) (u8 (y + Z.of_nat row))
              tileIndex palette false false)
      (seq 0 (Z.to_nat w)))
    (seq 0 (Z.to_nat h)).

(** ** The glyph compositor of the keyboard example *)

Definition palLetter : Z := 3.

(** [glyphQuarterTiles] returns (top-left, top-right, bottom-left,
    bottom-right), each a [[32]byte]. *)
Definition Quarters := (list Z * list Z * list Z * list Z)%type.

(** Go array element assignment [a[k] = v]; every index used below is in
    range (at most 31), so the out-of-range case (a Go panic) never arises. *)
Fixpoint upd (l : list Z) (k : nat) (v : Z) : list Z :=
  match l, k with
  | [], _ => []
  | _ :: t, O => v :: t
  | x :: t, S k' => x :: upd t k' v
  end.

(** [var g [5]uint8; if (bits>>(4-uint(i)))&1 != 0 { g[i] = palLetter }]. *)
Definition glyph_row_pixels (bits : Z) : list Z :=
  map (fun i => if negb (Z.land (Z.shiftr bits (4 - i)) 1 =? 0) then palLetter else 0)
      [0; 1; 2; 3; 4].

(** One iteration [gr] of the outer loop. *)
Definition glyph_step (rows : list Z) (acc : Quarters) (gr : nat) : Quarters :=
  let bits := nth gr rows 0 in
  let g := glyph_row_pixels bits in
  let tileRow := if (gr <? 4)%nat then (4 + gr)%nat else (gr - 4)%nat in
  let base := (tileRow * 4)%nat in
  let '(tl, tr, bl, br) := acc in
  if (gr <? 4)%nat then
    let tl := upd tl (base + 2) (u8 (Z.lor 0 (Z.shiftl (nth 0 g 0) 4))) in
    let tl := upd tl (base + 3) (u8 (Z.lor (nth 1 g 0) (Z.shiftl (nth 2 g 0) 4))) in
    let tr := upd tr (base + 0) (u8 (Z.lor (nth 3 g 0) (Z.shiftl (nth 4 g 0) 4))) in
    (tl, tr, bl, br)
  else
    let bl := upd bl (base + 2) (u8 (Z.lor 0 (Z.shiftl (nth 0 g 0) 4))) in
    let bl := upd bl (base + 3) (u8 (Z.lor (nth 1 g 0) (Z.shiftl (nth 2 g 0) 4))) in
    let br := upd br (base + 0) (u8 (Z.lor (nth 3 g 0) (Z.shiftl (nth 4 g 0) 4))) in
    (tl, tr, bl, br).

Definition zero_tile : list Z := repeat 0 32.

(** [glyphQuarterTiles(rows [7]uint8) (tl, tr, bl, br [32]byte)]. *)
Definition glyphQuarterTiles (rows : list Z) : Quarters :=
  fold_left (glyph_step rows) (seq 0 7) (zero_tile, zero_tile, zero_tile, zero_tile).

(** The glyph of 'a' from [letterGlyphs]. *)
Definition letter_a : list Z := [14; 17; 17; 31; 17; 17; 17].

(** ** Reading the compositor's output (spec side) *)

Inductive quadrant : Type := TL | TR | BL | BR.

Definition quarter (qs : Quarters) (q : quadrant) : list Z :=
  let '(tl, tr, bl, br) := qs in
  match q with TL => tl | TR => tr | BL => bl | BR => br end.

Definition quadrant_eqb (q q' : quadrant) : bool :=
  match q, q' with
  | TL, TL | TR, TR | BL, BL | BR, BR => true
  | _, _ => false
  end.

(** The quadrant of a 2x2 cell owning tile column [tileCol], tile row [tileRow]. *)
Definition quadrant_of (tileCol tileRow : nat) : option quadrant :=
  match tileCol, tileRow with
  | 0, 0 => Some TL | 1, 0 => Some TR
  | 0, 1 => Some BL | 1, 1 => Some BR
  | _, _ => None
  end%nat.

(** The 4bpp pixel [(px, py)] of a 32-byte tile: byte [py*4 + px/2], even
    [px] in the low nibble, odd [px] in the high nibble. *)
Definition nibble (tile : list Z) (px py : nat) : Z :=
  Z.land (Z.shiftr (nth (py * 4 + px / 2) tile 0) (4 * Z.of_nat (px mod 2))) 15.

(** Glyph pixel (row [r], column [c]): bit [4 - c] of row [r]
    (bit 4 = leftmost column, as documented at [letterGlyphs]). *)
Definition glyph_set (rows : list Z) (r c : nat) : bool :=
  Z.testbit (nth r rows 0) (4 - Z.of_nat c).

(** Glyph pixel [(r, c)] placed at cell offset [(ox, oy)] lands in quadrant
    [q] at intra-tile position [(px, py)]. *)
Definition lands (ox oy r c : nat) (q : quadrant) (px py : nat) : bool :=
  match quadrant_of ((ox + c) / 8) ((oy + r) / 8) with
  | Some q' => quadrant_eqb q' q
  | None => false
  end && Nat.eqb ((ox + c) mod 8) px && Nat.eqb ((oy + r) mod 8) py.

(** Some set glyph pixel lands at [(q, px, py)]. *)
Definition expected (ox oy : nat) (rows : list Z) (q : quadrant) (px py : nat) : bool :=
  existsb (fun r => existsb (fun c => lands ox oy r c q px py && glyph_set rows r c)
                            (seq 0 5))
          (seq 0 7).

(** The four buffers hold exactly the glyph's set pixels moved by [(ox, oy)]:
    every set pixel is the foreground index at its target nibble, and every
    nibble is the foreground index if a set pixel lands there and 0 otherwise. *)
Definition composited (ox oy : nat) (rows : list Z) (qs : Quarters) : Prop :=
  (forall r c, (r < 7)%nat -> (c < 5)%nat -> glyph_set rows r c = true ->
     exists q, quadrant_of ((ox + c) / 8) ((oy + r) / 8) = Some q /\
               nibble (quarter qs q) ((ox + c) mod 8) ((oy + r) mod 8) = palLetter) /\
  (forall q px py, (px < 8)%nat -> (py < 8)%nat ->
     nibble (quarter qs q) px py = if expected ox oy rows q px py then palLetter else 0).

(** The reference layout of [glyphQuarterTiles] as the claims state it:
    the quadrant, the byte and the nibble ([true] = high) that glyph pixel
    [(r, c)] goes to. *)
Definition ref_quadrant (r c : nat) : quadrant :=
  if (r <? 4)%nat then (if (c <? 3)%nat then TL else TR)
  else (if (c <? 3)%nat then BL else BR).

Definition ref_tileRow (r : nat) : nat :=
  if (r <? 4)%nat then (4 + r)%nat else (r - 4)%nat.

Definition ref_byte (r c : nat) : nat * bool :=
  match c with
  | 0 => (ref_tileRow r * 4 + 2, true)
  | 1 => (ref_tileRow r * 4 + 3, false)
  | 2 => (ref_tileRow r * 4 + 3, true)
  | 3 => (ref_tileRow r * 4, false)
  | _ => (ref_tileRow r * 4, true)
  end%nat.

(** Low ([false]) or high ([true]) nibble of byte [k] of a tile. *)
Definition byte_nibble (tile : list Z) (k : nat) (hi : bool) : Z :=
  Z.land (Z.shiftr (nth k tile 0) (if hi then 4 else 0)) 15.

Definition slot_eqb (a b : quadrant * (nat * bool)) : bool :=
  let '(q, (k, h)) := a in
  let '(q', (k', h')) := b in
  quadrant_eqb q q' && Nat.eqb k k' && Bool.eqb h h'.

(** Some glyph pixel's reference slot is [x]. *)
Definition ref_target (x : quadrant * (nat * bool)) : bool :=
  existsb (fun r => existsb (fun c => slot_eqb (ref_quadrant r c, ref_byte r c) x)
                            (seq 0 5))
          (seq 0 7).

(** ** Spec-side addressing of VRAM *)

(** Byte address of tilemap cell [(x, y)] of screen block [sb]: VRAM halfword
    index [sb*1024 + y*32 + x]. *)
Definition vram_cell_addr (sb x y : Z) : Z := memVRAM + 2 * (sb * 1024 + y * 32 + x).

(** Read [size] bytes of memory back from [base]. *)
Definition decode_tile (m : mem) (base : Z) (size : nat) : list Z :=
  map (fun i => m (base + Z.of_nat i)) (seq 0 size).

(** The pixel value [glyphQuarterTiles] derives from bit [n] of a row. *)
Definition pix (bits n : Z) : Z := if Z.testbit bits n then palLetter else 0.

(** ** Further definitions of tiles.go *)

(** The BGxCNT field positions of [device/gba] (the GBATEK layout). *)
Definition BGCNT_CHAR_BASE_Pos : Z := 2.
Definition BGCNT_COLORS_Pos : Z := 7.
Definition BGCNT_BASE_Pos : Z := 8.
Definition BGCNT_SIZE_Pos : Z := 14.

(** [ColorMode] and [MapSize] are [uint8] constants. *)
Definition Colors16 : Z := 0.
Definition Colors256 : Z := 1.
Definition Size32x32 : Z := 0.
Definition Size64x32 : Z := 1.
Definition Size32x64 : Z := 2.
Definition Size64x64 : Z := 3.

(** [SetupLayer(layer Layer, charBlock, screenBlock uint8, mode ColorMode,
    size MapSize, priority uint8)]: the or of the [uint16] fields, then a
    switch on the layer; a layer outside 0..3 matches no case. *)
Definition SetupLayer (layer charBlock screenBlock mode size priority : Z) : list write :=
  let value :=
    Z.lor (Z.lor (Z.lor (Z.lor (u16 priority)
                               (u16 (Z.shiftl (u16 charBlock) BGCNT_CHAR_BASE_Pos)))
                        (u16 (Z.shiftl (u16 mode) BGCNT_COLORS_Pos)))
                 (u16 (Z.shiftl (u16 screenBlock) BGCNT_BASE_Pos)))
          (u16 (Z.shiftl (u16 size) BGCNT_SIZE_Pos)) in
  if layer =? Layer0 then [(BGCNT 0, value)]
  else if layer =? Layer1 then [(BGCNT 1, value)]
  else if layer =? Layer2 then [(BGCNT 2, value)]
  else if layer =? Layer3 then [(BGCNT 3, value)]
  else [].

(** ** sound.go *)

(** The sound registers of [device/gba] written by sound.go. *)
Inductive sound_loc : Type :=
| SOUND_CNT_X      (* gba.SOUND.CNT_X *)
| SOUND_CNT_L      (* gba.SOUND.CNT_L *)
| SOUND_CNT_H      (* gba.SOUND.CNT_H *)
| SOUND2_CNT_L     (* gba.SOUND2.CNT_L *)
| SOUND2_CNT_H.    (* gba.SOUND2.CNT_H *)

Definition sound_write := (sound_loc * Z)%type.

(** [EnableSound(leftVolume, rightVolume uint16)]. *)
Definition EnableSound (leftVolume rightVolume : Z) : list sound_write :=
  [(SOUND_CNT_X, Z.shiftl 1 7);
   (SOUND_CNT_L, Z.lor (Z.lor (Z.lor rightVolume (u16 (Z.shiftl leftVolume 4)))
                              (Z.shiftl 1 9))
                       (Z.shiftl 1 13));
   (SOUND_CNT_H, 2)].

(** [DisableSound()]. *)
Definition DisableSound : list sound_write := [(SOUND_CNT_X, 0)].

(** [PlayNote(frequency, duty, volume uint16, duration uint8)]. *)
Definition PlayNote (frequency duty volume duration : Z) : list sound_write :=
  [(SOUND2_CNT_L, Z.lor (Z.lor (u16 duration) (u16 (Z.shiftl duty 6)))
                        (u16 (Z.shiftl volume 12)));
   (SOUND2_CNT_H, if 0 <? duration
                  then Z.lor (Z.lor frequency (Z.shiftl 1 14)) (Z.shiftl 1 15)
                  else Z.lor frequency (Z.shiftl 1 15))].

(** ** The rest of the tiled keyboard example *)

Definition layout : list (list string) :=
  [["q"; "w"; "e"; "r"; "t"; "y"; "u"; "i"; "o"; "p"];
   ["a"; "s"; "d"; "f"; "g"; "h"; "j"; "k"; "l"];
   ["z"; "x"; "c"; "v"; "b"; "n"; "m"]]%string.

Definition kbCharBlock : Z := 0.
Definition kbBgBlock : Z := 8.
Definition kbFgBlock : Z := 9.
Definition tileKeyNormal : Z := 1.
Definition tileKeySelect : Z := 2.
Definition tileLetterBase : Z := 10.
Definition palKeyGray : Z := 1.
Definition palKeyHL : Z := 2.
Definition kbTileY0 : Z := 13.

(** [keyTileX(row, col int) uint8]. *)
Definition keyTileX (row col : Z) : Z :=
  if row =? 0 then u8 (5 + col * 2)
  else if row =? 1 then u8 (6 + col * 2)
  else u8 (8 + col * 2).

(** [keyTileY(row int) uint8]. *)
Definition keyTileY (row : Z) : Z := u8 (kbTileY0 + row * 2).

(** [setKeyBg(row, col int, tile uint16)]; [x+1] and [y+1] are [uint8] sums. *)
Definition setKeyBg (row col tile : Z) : list write :=
  let x := keyTileX row col in
  let y := keyTileY row in
  SetTile kbBgBlock x y tile 0 false false ++
  SetTile kbBgBlock (u8 (x + 1)) y tile 0 false false ++
  SetTile kbBgBlock x (u8 (y + 1)) tile 0 false false ++
  SetTile kbBgBlock (u8 (x + 1)) (u8 (y + 1)) tile 0 false false.

(** A [for i, v := range l] loop whose body may panic ([None]); the stores
    of the iterations are concatenated. *)
Fixpoint range_writes {A : Type} (body : Z -> A -> option (list write)) (i : Z)
  (l : list A) : option (list write) :=
  match l with
  | [] => Some []
  | v :: l' =>
      match body i v with
      | None => None
      | Some ws =>
          match range_writes body (i + 1) l' with
          | None => None
          | Some ws' => Some (ws ++ ws')
          end
      end
  end.

(** [int(key[0] - 'a')]: a byte subtraction; [key[0]] panics on "". *)
Definition letterIdx (key : string) : option Z :=
  match key with
  | String c _ => Some (u8 (Z.of_N (N_of_ascii c) - 97))
  | EmptyString => None
  end.

(** The loop body of [setLetterTiles]; [base] is a [uint16]. *)
Definition letterTilesAt (row col : Z) (key : string) : option (list write) :=
  match letterIdx key with
  | None => None
  | Some li =>
      let x := keyTileX row col in
      let y := keyTileY row in
      let base := u16 (tileLetterBase + li * 4) in
      Some (SetTile kbFgBlock x y (u16 (base + 0)) 0 false false ++
            SetTile kbFgBlock (u8 (x + 1)) y (u16 (base + 1)) 0 false false ++
            SetTile kbFgBlock x (u8 (y + 1)) (u16 (base + 2)) 0 false false ++
            SetTile kbFgBlock (u8 (x + 1)) (u8 (y + 1)) (u16 (base + 3)) 0 false false)
  end.

(** [setLetterTiles()]. *)
Definition setLetterTiles : option (list write) :=
  range_writes (fun row rowKeys => range_writes (letterTilesAt row) 0 rowKeys) 0 layout.

(** [letterGlyphs]: the 5x7 bitmaps of 'a'..'z'. *)
Definition letterGlyphs : list (list Z) :=
  [[14; 17; 17; 31; 17; 17; 17]; [30; 17; 17; 30; 17; 17; 30];
   [14; 17; 16; 16; 16; 17; 14]; [30; 17; 17; 17; 17; 17; 30];
   [31; 16; 16; 30; 16; 16; 31]; [31; 16; 16; 30; 16; 16; 16];
   [14; 17; 16; 23; 17; 17; 14]; [17; 17; 17; 31; 17; 17; 17];
   [31; 4; 4; 4; 4; 4; 31];      [15; 1; 1; 1; 17; 17; 14];
   [17; 18; 20; 24; 20; 18; 17]; [16; 16; 16; 16; 16; 16; 31];
   [17; 27; 21; 17; 17; 17; 17]; [17; 25; 21; 19; 17; 17; 17];
   [14; 17; 17; 17; 17; 17; 14]; [30; 17; 17; 30; 16; 16; 16];
   [14; 17; 17; 17; 21; 18; 13]; [30; 17; 17; 30; 20; 18; 17];
   [15; 16; 16; 14; 1; 1; 30];   [31; 4; 4; 4; 4; 4; 4];
   [17; 17; 17; 17; 17; 17; 14]; [17; 17; 17; 17; 10; 10; 4];
   [17; 17; 17; 17; 21; 27; 17]; [17; 10; 10; 4; 10; 10; 17];
   [17; 17; 10; 4; 4; 4; 4];     [31; 1; 2; 4; 8; 16; 31]].

(** [solid[i] = p | (p << 4)] for all 32 bytes. *)
Definition solidTile (p : Z) : list Z := repeat (Z.lor p (Z.shiftl p 4)) 32.

(** One iteration of the glyph loop of [InitTiles]. *)
Definition letterTileDefs (i : Z) (rows : list Z) : list write :=
  let '(tl, tr, bl, br) := glyphQuarterTiles rows in
  let base := u16 (tileLetterBase + i * 4) in
  DefineTile4bpp kbCharBlock (u16 (base + 0)) tl ++
  DefineTile4bpp kbCharBlock (u16 (base + 1)) tr ++
  DefineTile4bpp kbCharBlock (u16 (base + 2)) bl ++
  DefineTile4bpp kbCharBlock (u16 (base + 3)) br.

(** The package-level variables of the example. *)
Record kb_state : Type := mk_kb_state {
  selectedRow : Z;
  selectedCol : Z;
  prevButtons : Z;
  prevTileRow : Z;
  prevTileCol : Z
}.

(** Their initial values: [selectedRow = 0], [selectedCol = 0],
    [prevButtons = 0xFFFF], [prevTileRow, prevTileCol = -1, -1]. *)
Definition kb_init : kb_state := mk_kb_state 0 0 65535 (-1) (-1).

(** [InitTiles()]. *)
Definition InitTiles (s : kb_state) : option (list write * kb_state) :=
  match range_writes (fun i rows => Some (letterTileDefs i rows)) 0 letterGlyphs,
        range_writes (fun row rowKeys =>
                        range_writes (fun col _ => Some (setKeyBg row col tileKeyNormal))
                                     0 rowKeys) 0 layout,
        setLetterTiles with
  | Some glyphs, Some bgs, Some letters =>
      Some (ConfigureLayers [Layer0; Layer1] ++
            SetupLayer Layer1 kbCharBlock kbBgBlock Colors16 Size32x32 1 ++
            SetupLayer Layer0 kbCharBlock kbFgBlock Colors16 Size32x32 0 ++
            SetScroll Layer0 0 0 ++
            SetScroll Layer1 0 0 ++
            SetPaletteColor 0 palKeyGray (RGB 12 12 12) ++
            SetPaletteColor 0 palKeyHL (RGB 14 8 20) ++
            SetPaletteColor 0 palLetter (RGB 31 31 31) ++
            DefineTile4bpp kbCharBlock tileKeyNormal (solidTile palKeyGray) ++
            DefineTile4bpp kbCharBlock tileKeySelect (solidTile palKeyHL) ++
            glyphs ++
            FillTiled kbBgBlock 0 0 30 20 0 0 ++
            FillTiled kbFgBlock 0 0 30 20 0 0 ++
            bgs ++
            letters ++
            setKeyBg (selectedRow s) (selectedCol s) tileKeySelect,
            mk_kb_state (selectedRow s) (selectedCol s) (prevButtons s)
                        (selectedRow s) (selectedCol s))
  | _, _, _ => None
  end.

(** [DrawTile()]. *)
Definition DrawTile (s : kb_state) : list write * kb_state :=
  if (selectedRow s =? prevTileRow s) && (selectedCol s =? prevTileCol s) then ([], s)
  else (setKeyBg (prevTileRow s) (prevTileCol s) tileKeyNormal ++
        setKeyBg (selectedRow s) (selectedCol s) tileKeySelect,
        mk_kb_state (selectedRow s) (selectedCol s) (prevButtons s)
                    (selectedRow s) (selectedCol s)).

(** [len(layout[r])]; indexing out of range panics. *)
Definition rowLen (r : Z) : option Z :=
  if r <? 0 then None
  else match nth_error layout (Z.to_nat r) with
       | Some keys => Some (Z.of_nat (length keys))
       | None => None
       end.

Section Input.

(** [Button.IsPushed] and the button constants of the tinygba package. *)
Variable IsPushed : Z -> Z -> bool.
Variables ButtonRight ButtonLeft ButtonDown ButtonUp : Z.

(** [justPressed(button, curr, prev)]. *)
Definition justPressed (button curr prev : Z) : bool :=
  IsPushed button curr && negb (IsPushed button prev).

(** [Update()] with [curr = ReadButtons()]: the new variables and the sound
    stores ([PlayNote(1800, 0, 6, 57)] when the cursor moved). *)
Definition Update (curr : Z) (s : kb_state) : option (kb_state * list sound_write) :=
  let sr := selectedRow s in
  let sc := selectedCol s in
  let prev := prevButtons s in
  let next :=
    if justPressed ButtonRight curr prev then
      let sc := sc + 1 in
      match rowLen sr with
      | None => None
      | Some n => Some (sr, if n <=? sc then 0 else sc, true)
      end
    else if justPressed ButtonLeft curr prev then
      let sc := sc - 1 in
      if sc <? 0 then
        match rowLen sr with
        | None => None
        | Some n => Some (sr, n - 1, true)
        end
      else Some (sr, sc, true)
    else if justPressed ButtonDown curr prev then
      let sr := sr + 1 in
      let sr := if Z.of_nat (length layout) <=? sr then 0 else sr in
      match rowLen sr with
      | None => None
      | Some n => Some (sr, if n <=? sc then n - 1 else sc, true)
      end
    else if justPressed ButtonUp curr prev then
      let sr := sr - 1 in
      let sr := if sr <? 0 then Z.of_nat (length layout) - 1 else sr in
      match rowLen sr with
      | None => None
      | Some n => Some (sr, if n <=? sc then n - 1 else sc, true)
      end
    else Some (sr, sc, false) in
  match next with
  | None => None
  | Some (sr, sc, playBeep) =>
      Some (mk_kb_state sr sc curr (prevTileRow s) (prevTileCol s),
            if playBeep then PlayNote 1800 0 6 57 else [])
  end.

(** The main loop [for { WaitForVBlank(); Update(); DrawTile() }] over the
    successive values of [ReadButtons()] ([WaitForVBlank] stores nothing):
    the VRAM and palette stores, the sound stores and the final variables. *)
Fixpoint frames (inputs : list Z) (s : kb_state)
  : option (list write * list sound_write * kb_state) :=
  match inputs with
  | [] => Some ([], [], s)
  | curr :: rest =>
      match Update curr s with
      | None => None
      | Some (s1, snd) =>
          let (ws, s2) := DrawTile s1 in
          match frames rest s2 with
          | None => None
          | Some (ws', snd', s3) => Some (ws ++ ws', snd ++ snd', s3)
          end
      end
  end.

(** [main()]: [InitTiles()], [EnableSound(7, 7)], then the main loop. *)
Definition main (inputs : list Z) : option (list write * list sound_write * kb_state) :=
  match InitTiles kb_init with
  | None => None
  | Some (ws, s) =>
      match frames inputs s with
      | None => None
      | Some (ws', snd, s') => Some (ws ++ ws', EnableSound 7 7 ++ snd, s')
      end
  end.

End Input.

(** ** Reading the keyboard's screen back *)

(** Key [(row, col)] is a key of [layout]. *)
Definition validKey (row col : Z) : bool :=
  match rowLen row with
  | Some n => (0 <=? col) && (col <? n)
  | None => false
  end.

(** The letter index of key [(row, col)]. *)
Definition keyLetter (row col : Z) : option Z :=
  if (row <? 0) || (col <? 0) then None
  else match nth_error layout (Z.to_nat row) with
       | Some keys =>
           match nth_error keys (Z.to_nat col) with
           | Some key => letterIdx key
           | None => None
           end
       | None => None
       end.

(** All keys, row by row. *)
Definition allKeys : list (Z * Z) :=
  flat_map (fun r => map (fun c => (Z.of_nat r, Z.of_nat c))
                         (seq 0 (length (nth r layout []))))
           (seq 0 (length layout)).

(** Tile cell [(cx, cy)] belongs to the 2x2 block of key [(row, col)]. *)
Definition inKeyBlock (row col cx cy : Z) : bool :=
  (keyTileX row col <=? cx) && (cx <=? keyTileX row col + 1) &&
  (keyTileY row <=? cy) && (cy <=? keyTileY row + 1).

Definition onKey (cx cy : Z) : bool :=
  existsb (fun k => inKeyBlock (fst k) (snd k) cx cy) allKeys.

(** The four cells of a key block, as offsets. *)
Definition quads : list (Z * Z) := [(0, 0); (1, 0); (0, 1); (1, 1)].

(** The tilemaps as the keyboard shows them with key [(sr, sc)] selected:
    each key block in screen block 8 holds the selected or normal key tile,
    in screen block 9 the four quarters of its letter; every other cell of the
    30x20 visible area holds entry 0 in both blocks. *)
Definition screenOk (M : mem) (sr sc : Z) : bool :=
  forallb (fun k =>
    let '(r, c) := k in
    forallb (fun d =>
      let '(dx, dy) := d in
      let cx := keyTileX r c + dx in
      let cy := keyTileY r + dy in
      (read16 M (vram_cell_addr kbBgBlock cx cy) =?
         setTileEntry (if (r =? sr) && (c =? sc) then tileKeySelect else tileKeyNormal)
                      0 false false) &&
      match keyLetter r c with
      | Some li => read16 M (vram_cell_addr kbFgBlock cx cy) =?
                     setTileEntry (tileLetterBase + li * 4 + dx + 2 * dy) 0 false false
      | None => false
      end) quads) allKeys &&
  forallb (fun cy =>
    forallb (fun cx =>
      onKey cx cy ||
      ((read16 M (vram_cell_addr kbBgBlock cx cy) =? 0) &&
       (read16 M (vram_cell_addr kbFgBlock cx cy) =? 0)))
      (map Z.of_nat (seq 0 30)))
    (map Z.of_nat (seq 0 20)).

Fixpoint zlist_eqb (a b : list Z) : bool :=
  match a, b with
  | [], [] => true
  | x :: a', y :: b' => (x =? y) && zlist_eqb a' b'
  | _, _ => false
  end.

(** Tile graphics and palette as [InitTiles] defines them: palette 0 entries
    1..3, tiles 1 and 2 solid, tiles [10 + 4i + q] the quarters of letter [i]. *)
Definition graphicsOk (M : mem) : bool :=
  (read16 M (memPAL + 2 * palKeyGray) =? RGB 12 12 12) &&
  (read16 M (memPAL + 2 * palKeyHL) =? RGB 14 8 20) &&
  (read16 M (memPAL + 2 * palLetter) =? RGB 31 31 31) &&
  zlist_eqb (decode_tile M (memVRAM + tileKeyNormal * 32) 32) (solidTile palKeyGray) &&
  zlist_eqb (decode_tile M (memVRAM + tileKeySelect * 32) 32) (solidTile palKeyHL) &&
  forallb (fun i =>
    forallb (fun q =>
      zlist_eqb (decode_tile M (memVRAM + (tileLetterBase + Z.of_nat i * 4 + q) * 32) 32)
                (quarter (glyphQuarterTiles (nth i letterGlyphs []))
                         (nth (Z.to_nat q) [TL; TR; BL; BR] TL)))
      [0; 1; 2; 3])
    (seq 0 26).

(** The keys of row [r]. *)
Definition keysInRow (r : Z) : Z := Z.of_nat (length (nth (Z.to_nat r) layout [])).

(** Cursor movement as modular arithmetic: right/left cycle through the row,
    down/up cycle through the three rows and clamp the column to the new
    row; the flag says whether the cursor moved. *)
Definition navigate (right left down up : bool) (sr sc : Z) : Z * Z * bool :=
  if right then (sr, (sc + 1) mod keysInRow sr, true)
  else if left then (sr, (sc - 1) mod keysInRow sr, true)
  else if down then
    let r := (sr + 1) mod 3 in (r, Z.min sc (keysInRow r - 1), true)
  else if up then
    let r := (sr - 1) mod 3 in (r, Z.min sc (keysInRow r - 1), true)
  else (sr, sc, false).

(** The stores of [InitTiles] from the initial variables. *)
Definition init_trace : list write :=
  match InitTiles kb_init with Some (ws, _) => ws | None => [] end.

(** [screenOk] as a proposition. *)
Definition screenShown (M : mem) (sr sc : Z) : Prop :=
  (forall r c dx dy, validKey r c = true -> 0 <= dx <= 1 -> 0 <= dy <= 1 ->
     read16 M (vram_cell_addr kbBgBlock (keyTileX r c + dx) (keyTileY r + dy)) =
       setTileEntry (if (r =? sr) && (c =? sc) then tileKeySelect else tileKeyNormal)
                    0 false false /\
     exists li, keyLetter r c = Some li /\
       read16 M (vram_cell_addr kbFgBlock (keyTileX r c + dx) (keyTileY r + dy)) =
         setTileEntry (tileLetterBase + li * 4 + dx + 2 * dy) 0 false false) /\
  (forall cx cy, 0 <= cx < 30 -> 0 <= cy < 20 -> onKey cx cy = false ->
     read16 M (vram_cell_addr kbBgBlock cx cy) = 0 /\
     read16 M (vram_cell_addr kbFgBlock cx cy) = 0).

(** [graphicsOk] as a proposition. *)
Definition graphicsShown (M : mem) : Prop :=
  read16 M (memPAL + 2 * palKeyGray) = RGB 12 12 12 /\
  read16 M (memPAL + 2 * palKeyHL) = RGB 14 8 20 /\
  read16 M (memPAL + 2 * palLetter) = RGB 31 31 31 /\
  decode_tile M (memVRAM + tileKeyNormal * 32) 32 = solidTile palKeyGray /\
  decode_tile M (memVRAM + tileKeySelect * 32) 32 = solidTile palKeyHL /\
  (forall i q, (i < 26)%nat -> 0 <= q < 4 ->
     decode_tile M (memVRAM + (tileLetterBase + Z.of_nat i * 4 + q) * 32) 32 =
     quarter (glyphQuarterTiles (nth i letterGlyphs []))
             (nth (Z.to_nat q) [TL; TR; BL; BR] TL)).

(** ** Lemmas *)

Lemma land_shiftr_1 (x n : Z) :
  0 <= n -> Z.land (Z.shiftr x n) 1 = Z.b2z (Z.testbit x n).
Proof.
  intros Hn.
  rewrite Z.testbit_spec' by exact Hn.
  rewrite Z.shiftr_div_pow2 by exact Hn.
  change 1 with (Z.ones 1).
  rewrite Z.land_ones by lia.
  reflexivity.
Qed.

Lemma glyph_row_pixels_spec (bits : Z) :
  glyph_row_pixels bits = [pix bits 4; pix bits 3; pix bits 2; pix bits 1; pix bits 0].
Proof.
  unfold glyph_row_pixels, pix; cbn [map].
  rewrite !land_shiftr_1 by lia.
  repeat f_equal; simpl Z.sub;
    match goal with |- context [Z.testbit ?x ?n] => destruct (Z.testbit x n) end;
    reflexivity.
Qed.

Ltac destruct_testbits :=
  repeat match goal with
         | |- context [Z.testbit ?x ?n] => destruct (Z.testbit x n)
         end.

Lemma glyphQuarterTiles_nibbles (rows : list Z) (q : quadrant) (px py : nat) :
  (px < 8)%nat -> (py < 8)%nat ->
  nibble (quarter (glyphQuarterTiles rows) q) px py =
  if expected 5 4 rows q px py then palLetter else 0.
Proof.
  intros Hx Hy.
  unfold glyphQuarterTiles; cbn [fold_left seq]; unfold glyph_step.
  rewrite !glyph_row_pixels_spec.
  cbn -[pix u8 Z.lor Z.shiftl Z.testbit nibble expected].
  destruct px as [|[|[|[|[|[|[|[|px]]]]]]]]; try lia;
  destruct py as [|[|[|[|[|[|[|[|py]]]]]]]]; try lia;
  destruct q;
  unfold nibble, expected, glyph_set;
  cbn -[pix u8 Z.lor Z.shiftl Z.shiftr Z.land Z.testbit];
  unfold pix; destruct_testbits; reflexivity.
Qed.

Lemma quadrant_eqb_eq (q q' : quadrant) : quadrant_eqb q q' = true -> q = q'.
Proof. destruct q, q'; cbn; congruence. Qed.

Lemma quadrant_of_inj (a b a' b' : nat) (q : quadrant) :
  quadrant_of a b = Some q -> quadrant_of a' b' = Some q -> a = a' /\ b = b'.
Proof.
  destruct a as [|[|a]], b as [|[|b]], a' as [|[|a']], b' as [|[|b']];
    cbn; intros H1 H2; try congruence; split; reflexivity.
Qed.

Lemma lands_spec (ox oy r c : nat) (q : quadrant) (px py : nat) :
  lands ox oy r c q px py = true ->
  quadrant_of ((ox + c) / 8) ((oy + r) / 8) = Some q /\
  ((ox + c) mod 8 = px)%nat /\ ((oy + r) mod 8 = py)%nat.
Proof.
  unfold lands.
  destruct (quadrant_of _ _) as [q'|] eqn:E; [|discriminate].
  rewrite !Bool.andb_true_iff, !Nat.eqb_eq.
  intros [[Hq Hx] Hy]. apply quadrant_eqb_eq in Hq. subst q'. auto.
Qed.

(** Distinct glyph pixels never land on the same nibble. *)
Lemma lands_injective (ox oy r c r' c' : nat) (q : quadrant) (px py : nat) :
  lands ox oy r c q px py = true -> lands ox oy r' c' q px py = true ->
  r = r' /\ c = c'.
Proof.
  intros H1 H2.
  apply lands_spec in H1 as [Q1 [X1 Y1]].
  apply lands_spec in H2 as [Q2 [X2 Y2]].
  destruct (quadrant_of_inj _ _ _ _ _ Q1 Q2) as [Dx Dy].
  pose proof (Nat.div_mod_eq (ox + c) 8) as E1.
  pose proof (Nat.div_mod_eq (ox + c') 8) as E2.
  pose proof (Nat.div_mod_eq (oy + r) 8) as E3.
  pose proof (Nat.div_mod_eq (oy + r') 8) as E4.
  rewrite Dx, X1 in E1. rewrite X2 in E2. rewrite Dy, Y1 in E3. rewrite Y2 in E4.
  split; lia.
Qed.

(** The first half of [composited] follows from the second. *)
Lemma composited_of_nibbles (ox oy : nat) (rows : list Z) (qs : Quarters) :
  (ox <= 7)%nat -> (oy <= 7)%nat ->
  (forall q px py, (px < 8)%nat -> (py < 8)%nat ->
     nibble (quarter qs q) px py = if expected ox oy rows q px py then palLetter else 0) ->
  composited ox oy rows qs.
Proof.
  intros Hox Hoy Hn. split; [|exact Hn].
  intros r c Hr Hc Hset.
  assert (Ha : ((ox + c) / 8 < 2)%nat) by (apply Nat.Div0.div_lt_upper_bound; lia).
  assert (Hb : ((oy + r) / 8 < 2)%nat) by (apply Nat.Div0.div_lt_upper_bound; lia).
  destruct (quadrant_of ((ox + c) / 8) ((oy + r) / 8)) as [q|] eqn:E.
  2:{ exfalso. destruct ((ox + c) / 8)%nat as [|[|]], ((oy + r) / 8)%nat as [|[|]];
      cbn in E; try discriminate; lia. }
  exists q. split; [reflexivity|].
  rewrite Hn by (apply Nat.mod_upper_bound; lia).
  replace (expected ox oy rows q ((ox + c) mod 8) ((oy + r) mod 8)) with true;
    [reflexivity|symmetry].
  unfold expected. apply existsb_exists. exists r.
  split; [apply in_seq; lia|].
  apply existsb_exists. exists c.
  split; [apply in_seq; lia|].
  rewrite Hset, Bool.andb_true_r.
  unfold lands. rewrite E. destruct q; cbn; rewrite !Nat.eqb_refl; reflexivity.
Qed.

(** ** C1: the compositor *)

(** C1 (as stated, for every offset): refuted.  [glyphQuarterTiles] takes no
    offset; at offset (0, 0) the set pixel (row 0, column 1) of 'a' belongs
    to the top-left tile at (1, 0), whose nibble the code leaves 0. *)
Lemma glyphQuarterTiles_not_offset_generic :
  ~ (forall (ox oy : nat) (rows : list Z), (ox <= 7)%nat -> (oy <= 7)%nat ->
       composited ox oy rows (glyphQuarterTiles rows)).
Proof.
  intro H.
  destruct (H 0%nat 0%nat letter_a) as [_ H2]; try lia.
  specialize (H2 TL 1%nat 0%nat ltac:(lia) ltac:(lia)).
  vm_compute in H2. discriminate.
Qed.

(** C1 (amended): at the reference offset (5, 4), for every glyph, the four
    buffers hold exactly the glyph's set pixels moved by the offset, each at
    [(ox+c) mod 8, (oy+r) mod 8] of the quadrant [((ox+c)/8, (oy+r)/8)] with
    4bpp packing, every other nibble 0; and distinct glyph pixels never
    share a target nibble. *)
Theorem glyphQuarterTiles_composited_ref (rows : list Z) :
  composited 5 4 rows (glyphQuarterTiles rows) /\
  (forall r c r' c' q px py,
     lands 5 4 r c q px py = true -> lands 5 4 r' c' q px py = true ->
     r = r' /\ c = c').
Proof.
  split.
  - apply composited_of_nibbles; [lia | lia |].
    intros q px py. apply glyphQuarterTiles_nibbles.
  - intros r c r' c' q px py. apply lands_injective.
Qed.

Lemma glyphQuarterTiles_composited_ref_witness :
  lands 5 4 0 2 TL 7 4 = true /\ (0 = 0 /\ 2 = 2)%nat.
Proof.
  split; [reflexivity|].
  apply (proj2 (glyphQuarterTiles_composited_ref letter_a) 0%nat 2%nat 0%nat 2%nat TL 7%nat 4%nat);
    reflexivity.
Defined.

(** ** C2: the reference layout *)

Lemma slot_eqb_true (a b : quadrant * (nat * bool)) : slot_eqb a b = true -> a = b.
Proof.
  destruct a as [q [k h]], b as [q' [k' h']]. unfold slot_eqb.
  rewrite !Bool.andb_true_iff, Nat.eqb_eq.
  intros [[Hq Hk] Hh]. apply quadrant_eqb_eq in Hq. apply Bool.eqb_prop in Hh.
  subst. reflexivity.
Qed.

Lemma ref_target_false (x : quadrant * (nat * bool)) :
  (forall r c, (r < 7)%nat -> (c < 5)%nat -> (ref_quadrant r c, ref_byte r c) <> x) ->
  ref_target x = false.
Proof.
  intros H. apply Bool.not_true_iff_false. intro E.
  apply existsb_exists in E as [r [Hr E]].
  apply existsb_exists in E as [c [Hc E]].
  apply in_seq in Hr, Hc.
  apply (H r c); [lia | lia |]. apply slot_eqb_true. exact E.
Qed.

Ltac enum_below k n :=
  let Hin := fresh "Hin" in
  assert (Hin : In k (seq 0 n)) by (apply in_seq; lia);
  cbn [seq In] in Hin;
  repeat (destruct Hin as [<-|Hin]); try contradiction.

Ltac unfold_glyphQuarterTiles :=
  unfold glyphQuarterTiles; cbn [fold_left seq]; unfold glyph_step;
  rewrite !glyph_row_pixels_spec.

(** C2: at the reference offset (5, 4), glyph rows 0-3 go to the top tiles at
    tile rows 4-7 and rows 4-6 to the bottom tiles at tile rows 0-2; column 0
    is the high nibble of byte [tileRow*4+2], columns 1 and 2 the low and
    high nibbles of byte [tileRow*4+3] of the left tile, columns 3 and 4 the
    low and high nibbles of byte [tileRow*4] of the right tile; a set bit
    gives [palLetter], an unset one 0, and every other nibble is 0. *)
Theorem glyphQuarterTiles_reference_layout (rows : list Z) :
  (forall r c, (r < 7)%nat -> (c < 5)%nat ->
     byte_nibble (quarter (glyphQuarterTiles rows) (ref_quadrant r c))
                 (fst (ref_byte r c)) (snd (ref_byte r c))
     = if glyph_set rows r c then palLetter else 0) /\
  (forall q k hi, (k < 32)%nat ->
     (forall r c, (r < 7)%nat -> (c < 5)%nat -> (ref_quadrant r c, ref_byte r c) <> (q, (k, hi))) ->
     byte_nibble (quarter (glyphQuarterTiles rows) q) k hi = 0).
Proof.
  unfold_glyphQuarterTiles.
  cbn -[pix u8 Z.lor Z.shiftl Z.testbit byte_nibble glyph_set ref_quadrant ref_byte].
  split.
  - intros r c Hr Hc.
    enum_below r 7%nat; enum_below c 5%nat;
    unfold byte_nibble, glyph_set, ref_quadrant, ref_byte, ref_tileRow;
    cbn -[pix u8 Z.lor Z.shiftl Z.shiftr Z.land Z.testbit];
    unfold pix; destruct_testbits; reflexivity.
  - intros q k hi Hk H.
    apply ref_target_false in H.
    enum_below k 32%nat; destruct q, hi;
    cbn in H; try discriminate H;
    unfold byte_nibble;
    cbn -[pix u8 Z.lor Z.shiftl Z.shiftr Z.land Z.testbit];
    unfold pix; destruct_testbits; reflexivity.
Qed.

Lemma glyphQuarterTiles_reference_layout_witness :
  (3 < 7 /\ 4 < 5)%nat /\
  byte_nibble (quarter (glyphQuarterTiles letter_a) (ref_quadrant 3 4))
              (fst (ref_byte 3 4)) (snd (ref_byte 3 4))
  = (if glyph_set letter_a 3 4 then palLetter else 0).
Proof.
  split; [lia|].
  exact (proj1 (glyphQuarterTiles_reference_layout letter_a) 3%nat 4%nat ltac:(lia) ltac:(lia)).
Defined.

(** ** Bit-level arithmetic *)

(** [lia] after evaluating the constant powers of two. *)
Ltac zlia :=
  repeat match goal with
         | |- context [2 ^ (Zpos ?p)] =>
             let v := eval vm_compute in (2 ^ Zpos p) in change (2 ^ Zpos p) with v
         | H : context [2 ^ (Zpos ?p)] |- _ =>
             let v := eval vm_compute in (2 ^ Zpos p) in change (2 ^ Zpos p) with v in H
         end;
  Z.div_mod_to_equations; lia.

Lemma lor_add (a b k : Z) :
  0 <= k -> 0 <= a < 2 ^ k -> 0 <= b -> Z.lor a (b * 2 ^ k) = a + b * 2 ^ k.
Proof.
  intros Hk Ha Hb.
  apply Z.bits_inj'. intros n Hn. rewrite Z.lor_spec.
  destruct (Z.lt_ge_cases n k) as [Hlt|Hge].
  - rewrite Z.mul_pow2_bits_low by lia. rewrite Bool.orb_false_r.
    rewrite <- (Z.mod_pow2_bits_low (a + b * 2 ^ k) k n) by lia.
    rewrite Z.mod_add by (apply Z.pow_nonzero; lia).
    rewrite Z.mod_small by lia. reflexivity.
  - rewrite Z.mul_pow2_bits by lia.
    rewrite <- (Z.mod_small a (2 ^ k)) at 1 by lia.
    rewrite Z.mod_pow2_bits_high by lia. cbn [orb].
    replace n with ((n - k) + k) at 2 by lia.
    rewrite <- Z.div_pow2_bits by lia.
    rewrite Z.div_add by (apply Z.pow_nonzero; lia).
    rewrite Z.div_small by lia. reflexivity.
Qed.

Lemma lor_lt_pow2 (a b k : Z) :
  0 <= k -> 0 <= a < 2 ^ k -> 0 <= b < 2 ^ k -> 0 <= Z.lor a b < 2 ^ k.
Proof.
  intros Hk Ha Hb.
  assert (E : Z.lor a b = Z.lor a b mod 2 ^ k).
  { rewrite <- Z.land_ones by lia. rewrite Z.land_lor_distr_l.
    rewrite !Z.land_ones by lia. rewrite !Z.mod_small by lia. reflexivity. }
  rewrite E. apply Z.mod_pos_bound. apply Z.pow_pos_nonneg; lia.
Qed.

(** A halfword split into its two bytes and joined back. *)
Lemma halfword_join (v : Z) :
  0 <= v < 2 ^ 16 ->
  Z.lor (Z.land v 255) (Z.shiftl (Z.land (Z.shiftr v 8) 255) 8) = v.
Proof.
  intros Hv.
  change 255 with (Z.ones 8).
  rewrite !Z.land_ones by lia.
  rewrite Z.shiftr_div_pow2, Z.shiftl_mul_pow2 by lia.
  rewrite lor_add.
  - assert (Hq : (v / 2 ^ 8) mod 2 ^ 8 = v / 2 ^ 8).
    { apply Z.mod_small. split; [apply Z.div_pos; lia|].
      apply Z.div_lt_upper_bound; [lia|]. exact (proj2 Hv). }
    rewrite Hq. pose proof (Z.div_mod v (2 ^ 8)) as Hd. lia.
  - lia.
  - apply Z.mod_pos_bound. lia.
  - apply Z.mod_pos_bound. lia.
Qed.

Lemma u16_small (x : Z) : 0 <= x < 2 ^ 16 -> u16 x = x.
Proof. intros H. unfold u16. apply Z.mod_small. exact H. Qed.

Lemma u8_small (x : Z) : 0 <= x < 2 ^ 8 -> u8 x = x.
Proof. intros H. unfold u8. apply Z.mod_small. exact H. Qed.

Lemma setTileEntry_lt (ti pal : Z) :
  0 <= ti < 2 ^ 16 -> 0 <= setTileEntry ti pal false false < 2 ^ 16.
Proof.
  intros Hti. unfold setTileEntry.
  apply lor_lt_pow2; [lia | exact Hti |].
  unfold u16. apply Z.mod_pos_bound. lia.
Qed.

(** ** Replaying store traces *)

Ltac simpl_eqb :=
  repeat match goal with
         | |- context [?x =? ?y] =>
             first [ rewrite (proj2 (Z.eqb_eq x y)) by lia
                   | rewrite (proj2 (Z.eqb_neq x y)) by lia ]
         end.

Lemma run_fresh (ws : list write) (m : mem) (a : Z) :
  (forall b v, In (Addr b, v) ws -> a <> b /\ a <> b + 1) ->
  run ws m a = m a.
Proof.
  revert m. induction ws as [|[l v] ws IH]; intros m H; [reflexivity|].
  cbn [run fold_left]. fold (run ws (step m (l, v))).
  rewrite IH by (intros b w Hin; apply (H b w); right; exact Hin).
  destruct l; cbn; try reflexivity.
  destruct (H addr v (or_introl eq_refl)) as [H1 H2].
  unfold store16. rewrite (proj2 (Z.eqb_neq _ _) H1), (proj2 (Z.eqb_neq _ _) H2).
  reflexivity.
Qed.

(** Stores that are either [v] at [a] or clear of [a] and [a+1] keep the
    two bytes of [v] there. *)
Definition clear_or_same (ws : list write) (a v : Z) : Prop :=
  forall b w, In (Addr b, w) ws ->
    (b = a /\ w = v) \/ (b <> a /\ b <> a + 1 /\ b + 1 <> a).

Lemma run_keep (ws : list write) (m : mem) (a v : Z) :
  m a = Z.land v 255 -> m (a + 1) = Z.land (Z.shiftr v 8) 255 ->
  clear_or_same ws a v ->
  run ws m a = Z.land v 255 /\ run ws m (a + 1) = Z.land (Z.shiftr v 8) 255.
Proof.
  revert m. induction ws as [|[l w] ws IH]; intros m H0 H1 H; [auto|].
  cbn [run fold_left]. fold (run ws (step m (l, w))).
  apply IH; [| | intros b w' Hin; apply H; right; exact Hin];
  (destruct l; cbn; [assumption..|]);
  destruct (H addr w (or_introl eq_refl)) as [[-> ->]|[Ha [Hb Hc]]];
  unfold store16; simpl_eqb; first [reflexivity | assumption].
Qed.

Lemma run_in (ws : list write) (m : mem) (a v : Z) :
  In (Addr a, v) ws -> clear_or_same ws a v ->
  run ws m a = Z.land v 255 /\ run ws m (a + 1) = Z.land (Z.shiftr v 8) 255.
Proof.
  revert m. induction ws as [|w ws IH]; intros m Hin H; [destruct Hin|].
  cbn [run fold_left]. fold (run ws (step m w)).
  destruct Hin as [->|Hin].
  - apply run_keep; [| | intros b w' Hw; apply H; right; exact Hw];
      cbn; unfold store16; simpl_eqb; reflexivity.
  - apply IH; [exact Hin|]. intros b w' Hw. apply H. right. exact Hw.
Qed.

Lemma read16_run_in (ws : list write) (m : mem) (a v : Z) :
  0 <= v < 2 ^ 16 -> In (Addr a, v) ws -> clear_or_same ws a v ->
  read16 (run ws m) a = v.
Proof.
  intros Hv Hin H. destruct (run_in ws m a v Hin H) as [E1 E2].
  unfold read16. rewrite E1, E2. apply halfword_join. exact Hv.
Qed.

(** ** SetTile *)

Lemma SetTile_store (sb x y ti pal : Z) (flipH flipV : bool) :
  SetTile sb x y ti pal flipH flipV =
  [(Addr (vram_cell_addr sb x y), setTileEntry ti pal flipH flipV)].
Proof.
  unfold SetTile, vram_cell_addr.
  replace (memVRAM + sb * 2048 + (y * 32 + x) * 2)
    with (memVRAM + 2 * (sb * 1024 + y * 32 + x)) by lia.
  reflexivity.
Qed.

Lemma setTileEntry_value (ti pal : Z) (flipH flipV : bool) :
  0 <= ti < 1024 -> 0 <= pal < 16 ->
  setTileEntry ti pal flipH flipV =
  ti + 1024 * Z.b2z flipH + 2048 * Z.b2z flipV + 4096 * pal.
Proof.
  intros Hti Hpal. unfold setTileEntry. cbv zeta.
  rewrite (u16_small pal) by zlia.
  rewrite (Z.shiftl_mul_pow2 pal 12) by lia.
  rewrite u16_small by zlia.
  change (Z.shiftl 1 10) with (1 * 2 ^ 10).
  change (Z.shiftl 1 11) with (1 * 2 ^ 11).
  destruct flipH, flipV;
    repeat match goal with
           | |- context [Z.lor ?a (?b * 2 ^ ?k)] => rewrite (lor_add a b k) by zlia
           end;
    cbn [Z.b2z]; zlia.
Qed.

(** C3 (as stated): refuted.  [SetTile] has no failure outcome and no range
    check: with x = 32 it still performs one store, which lands in cell
    (0, 1) of the same screen block. *)
Lemma SetTile_x32_not_rejected :
  SetTile 0 32 0 1 0 false false <> [] /\
  read16 (run (SetTile 0 32 0 1 0 false false) (fun _ => 0)) (vram_cell_addr 0 0 1) = 1.
Proof. split; [discriminate | vm_compute; reflexivity]. Qed.

(** C3 (amended): [SetTile] never fails and never checks its arguments: for
    all arguments it performs exactly one 16-bit store, of its entry value, at
    VRAM halfword index [screenBlock*1024 + y*32 + x]. *)
Theorem SetTile_unchecked_single_store (sb x y ti pal : Z) (flipH flipV : bool) :
  SetTile sb x y ti pal flipH flipV =
  [(Addr (memVRAM + 2 * (sb * 1024 + y * 32 + x)), setTileEntry ti pal flipH flipV)].
Proof. exact (SetTile_store sb x y ti pal flipH flipV). Qed.

(** C6: for in-range arguments [SetTile] performs one store at halfword
    index [screenBlock*1024 + y*32 + x] of a 16-bit value holding the tile
    index in bits 0-9, flipH in bit 10, flipV in bit 11, the palette in bits
    12-15. *)
Theorem SetTile_entry_fields (sb x y ti pal : Z) (flipH flipV : bool) :
  0 <= sb < 32 -> 0 <= x < 32 -> 0 <= y < 32 -> 0 <= ti < 1024 -> 0 <= pal < 16 ->
  exists e,
    SetTile sb x y ti pal flipH flipV = [(Addr (memVRAM + 2 * (sb * 1024 + y * 32 + x)), e)] /\
    0 <= e < 2 ^ 16 /\
    Z.land e 1023 = ti /\
    Z.testbit e 10 = flipH /\
    Z.testbit e 11 = flipV /\
    Z.land (Z.shiftr e 12) 15 = pal.
Proof.
  intros Hsb Hx Hy Hti Hpal.
  exists (setTileEntry ti pal flipH flipV).
  split; [apply SetTile_unchecked_single_store|].
  rewrite setTileEntry_value by lia.
  remember (ti + 1024 * Z.b2z flipH + 2048 * Z.b2z flipV + 4096 * pal) as e eqn:He.
  change 1023 with (Z.ones 10). change 15 with (Z.ones 4).
  rewrite Z.land_ones, Z.shiftr_div_pow2, Z.land_ones by lia.
  pose proof (Z.testbit_spec' e 10 ltac:(lia)) as B10.
  pose proof (Z.testbit_spec' e 11 ltac:(lia)) as B11.
  destruct flipH, flipV, (Z.testbit e 10), (Z.testbit e 11);
    cbn [Z.b2z] in *; repeat split; first [zlia | exfalso; zlia].
Qed.

Lemma SetTile_entry_fields_witness :
  (0 <= 3 < 32 /\ 0 <= 5 < 32 /\ 0 <= 7 < 32 /\ 0 <= 100 < 1024 /\ 0 <= 9 < 16) /\
  exists e,
    SetTile 3 5 7 100 9 true false = [(Addr (memVRAM + 2 * (3 * 1024 + 7 * 32 + 5)), e)] /\
    0 <= e < 2 ^ 16 /\ Z.land e 1023 = 100 /\ Z.testbit e 10 = true /\
    Z.testbit e 11 = false /\ Z.land (Z.shiftr e 12) 15 = 9.
Proof.
  split; [lia|].
  apply (SetTile_entry_fields 3 5 7 100 9 true false); lia.
Defined.

(** C10: an x of 32 is not rejected: it carries into column 0 of the next
    tile row. *)
Theorem SetTile_x32_carries (sb y ti pal : Z) (flipH flipV : bool) :
  0 <= y <= 30 ->
  SetTile sb 32 y ti pal flipH flipV = SetTile sb 0 (y + 1) ti pal flipH flipV.
Proof.
  intros Hy. rewrite !SetTile_store. unfold vram_cell_addr.
  replace (sb * 1024 + y * 32 + 32) with (sb * 1024 + (y + 1) * 32 + 0) by lia.
  reflexivity.
Qed.

Lemma SetTile_x32_carries_witness :
  0 <= 5 <= 30 /\ SetTile 9 32 5 12 0 false true = SetTile 9 0 (5 + 1) 12 0 false true.
Proof. split; [lia | apply SetTile_x32_carries; lia]. Defined.

(** ** FillTiled *)

Lemma map_flat_map {A B C : Type} (g : B -> C) (f : A -> list B) (l : list A) :
  map g (flat_map f l) = flat_map (fun a => map g (f a)) l.
Proof.
  induction l as [|a l IH]; [reflexivity|].
  cbn [flat_map]. rewrite map_app, IH. reflexivity.
Qed.

Lemma length_flat_map_const {A B : Type} (f : A -> list B) (l : list A) (k : nat) :
  (forall a, In a l -> length (f a) = k) -> length (flat_map f l) = (length l * k)%nat.
Proof.
  induction l as [|a l IH]; intros H; [reflexivity|].
  cbn [flat_map length]. rewrite length_app, H by (left; reflexivity).
  rewrite IH by (intros b Hb; apply H; right; exact Hb). lia.
Qed.

Lemma NoDup_flat_map_seq {B : Type} (f : nat -> list B) (n : nat) :
  (forall i, (i < n)%nat -> NoDup (f i)) ->
  (forall i j b, (i < n)%nat -> (j < n)%nat -> In b (f i) -> In b (f j) -> i = j) ->
  NoDup (flat_map f (seq 0 n)).
Proof.
  induction n as [|n IH]; intros Hnd Hdis; [constructor|].
  rewrite seq_S, flat_map_app. cbn [flat_map]. rewrite app_nil_r.
  apply NoDup_app.
  - apply IH; [intros i Hi; apply Hnd; lia|].
    intros i j b Hi Hj. apply Hdis; lia.
  - apply Hnd. lia.
  - intros b Hb Hb'. apply in_flat_map in Hb as [i [Hi Hb]].
    apply in_seq in Hi.
    assert (i = 0 + n)%nat by (apply (Hdis i (0 + n)%nat b); auto; lia). lia.
Qed.

Lemma In_FillTiled (sb x y w h ti pal : Z) (l : loc) (v : Z) :
  In (l, v) (FillTiled sb x y w h ti pal) <->
  exists row col, (row < Z.to_nat h)%nat /\ (col < Z.to_nat w)%nat /\
    l = Addr (vram_cell_addr sb (u8 (x + Z.of_nat col)) (u8 (y + Z.of_nat row))) /\
    v = setTileEntry ti pal false false.
Proof.
  unfold FillTiled. rewrite in_flat_map. split.
  - intros [row [Hr Hin]]. apply in_flat_map in Hin as [col [Hc Hin]].
    rewrite SetTile_store in Hin. destruct Hin as [E|[]].
    injection E as <- <-. apply in_seq in Hr, Hc.
    exists row, col. repeat split; lia.
  - intros [row [col [Hr [Hc [-> ->]]]]].
    exists row. split; [apply in_seq; lia|].
    apply in_flat_map. exists col. split; [apply in_seq; lia|].
    rewrite SetTile_store. left. reflexivity.
Qed.

Section FillTiled_rect.
Variables (sb x y w h ti pal : Z).
Hypotheses (Hx : 0 <= x) (Hy : 0 <= y) (Hw : 0 <= w) (Hh : 0 <= h)
           (Hxw : x + w <= 32) (Hyh : y + h <= 32).

Let in_rect (cx cy : Z) : Prop := x <= cx < x + w /\ y <= cy < y + h.

Lemma FillTiled_writes (l : loc) (v : Z) :
  In (l, v) (FillTiled sb x y w h ti pal) <->
  exists cx cy, in_rect cx cy /\ l = Addr (vram_cell_addr sb cx cy) /\
                v = setTileEntry ti pal false false.
Proof.
  rewrite In_FillTiled. unfold in_rect. split.
  - intros [row [col [Hr [Hc [-> ->]]]]].
    exists (x + Z.of_nat col), (y + Z.of_nat row).
    rewrite !u8_small by zlia. repeat split; lia.
  - intros [cx [cy [[Hcx Hcy] [-> ->]]]].
    exists (Z.to_nat (cy - y)), (Z.to_nat (cx - x)).
    rewrite !Z2Nat.id by lia. rewrite !u8_small by zlia.
    repeat split; try lia. do 3 f_equal; lia.
Qed.

Lemma FillTiled_clear_or_same (cx cy : Z) :
  in_rect cx cy ->
  clear_or_same (FillTiled sb x y w h ti pal) (vram_cell_addr sb cx cy)
                (setTileEntry ti pal false false).
Proof.
  unfold in_rect. intros Hc b v' Hin.
  apply FillTiled_writes in Hin as [cx' [cy' [Hc' [E ->]]]].
  injection E as ->. unfold in_rect in *.
  destruct (Z.eq_dec cx' cx), (Z.eq_dec cy' cy); subst;
    [left; split; reflexivity | right; unfold vram_cell_addr in *; lia ..].
Qed.

Lemma FillTiled_length :
  Z.of_nat (length (FillTiled sb x y w h ti pal)) = w * h.
Proof.
  unfold FillTiled.
  rewrite (length_flat_map_const _ _ (Z.to_nat w)).
  - rewrite length_seq, Nat2Z.inj_mul, !Z2Nat.id by lia. lia.
  - intros row _. rewrite (length_flat_map_const _ _ 1%nat).
    + rewrite length_seq. lia.
    + intros col _. reflexivity.
Qed.

Lemma FillTiled_NoDup :
  NoDup (map fst (FillTiled sb x y w h ti pal)).
Proof.
  unfold FillTiled. rewrite map_flat_map.
  apply NoDup_flat_map_seq.
  - intros row Hrow. rewrite map_flat_map.
    apply NoDup_flat_map_seq.
    + intros col _. rewrite SetTile_store. cbn [map fst]. constructor; [intros []|constructor].
    + intros i j b Hi Hj. rewrite !SetTile_store. cbn [map fst In].
      intros [<-|[]] [E|[]]. injection E.
      unfold vram_cell_addr. rewrite !u8_small by zlia. lia.
  - intros i j b Hi Hj. rewrite !map_flat_map.
    intros Hb1 Hb2.
    apply in_flat_map in Hb1 as [c1 [Hc1 Hb1]], Hb2 as [c2 [Hc2 Hb2]].
    apply in_seq in Hc1, Hc2.
    rewrite SetTile_store in Hb1, Hb2. cbn [map fst In] in Hb1, Hb2.
    destruct Hb1 as [<-|[]], Hb2 as [E|[]]. injection E.
    unfold vram_cell_addr. rewrite !u8_small by zlia. lia.
Qed.

End FillTiled_rect.

(** C4: for an in-bounds rectangle, after [FillTiled] every cell of the
    rectangle reads back the entry for [tileIndex] and [palette] with both
    flips clear, every byte outside the rectangle is unchanged, every store
    targets a cell of the rectangle, no cell is stored twice, and there are
    exactly [w*h] stores. *)
Theorem FillTiled_fill_and_frame (sb x y w h ti pal : Z) (m : mem) :
  0 <= x -> 0 <= y -> 0 <= w -> 0 <= h -> x + w <= 32 -> y + h <= 32 ->
  0 <= ti < 2 ^ 16 ->
  (forall cx cy, x <= cx < x + w -> y <= cy < y + h ->
     read16 (run (FillTiled sb x y w h ti pal) m) (vram_cell_addr sb cx cy)
     = setTileEntry ti pal false false) /\
  (forall a, (forall cx cy, x <= cx < x + w -> y <= cy < y + h ->
                a <> vram_cell_addr sb cx cy /\ a <> vram_cell_addr sb cx cy + 1) ->
     run (FillTiled sb x y w h ti pal) m a = m a) /\
  (forall l v, In (l, v) (FillTiled sb x y w h ti pal) ->
     exists cx cy, (x <= cx < x + w /\ y <= cy < y + h) /\
                   l = Addr (vram_cell_addr sb cx cy)) /\
  NoDup (map fst (FillTiled sb x y w h ti pal)) /\
  Z.of_nat (length (FillTiled sb x y w h ti pal)) = w * h.
Proof.
  intros Hx Hy Hw Hh Hxw Hyh Hti.
  split; [|split; [|split; [|split]]].
  - intros cx cy Hcx Hcy. apply read16_run_in.
    + apply setTileEntry_lt. exact Hti.
    + rewrite FillTiled_writes by lia. exists cx, cy. repeat split; lia.
    + apply FillTiled_clear_or_same; lia.
  - intros a Ha. apply run_fresh. intros b v Hin.
    rewrite FillTiled_writes in Hin by lia.
    destruct Hin as [cx [cy [Hc [E _]]]]. injection E as ->.
    apply Ha; lia.
  - intros l v Hin. rewrite FillTiled_writes in Hin by lia.
    destruct Hin as [cx [cy [Hc [E _]]]]. exists cx, cy. split; assumption.
  - apply FillTiled_NoDup; lia.
  - apply FillTiled_length; lia.
Qed.

Lemma FillTiled_fill_and_frame_witness :
  (0 <= 2 /\ 0 <= 3 /\ 0 <= 4 /\ 0 <= 5 /\ 2 + 4 <= 32 /\ 3 + 5 <= 32 /\ 0 <= 7 < 2 ^ 16) /\
  read16 (run (FillTiled 9 2 3 4 5 7 1) (fun _ => 0)) (vram_cell_addr 9 4 6)
  = setTileEntry 7 1 false false.
Proof.
  split; [zlia|].
  apply (FillTiled_fill_and_frame 9 2 3 4 5 7 1 (fun _ => 0)); zlia.
Defined.

(** ** DefineTile4bpp / DefineTile8bpp *)

Lemma nth_byte (pixels : list Z) (k : nat) :
  Forall (fun p => 0 <= p < 2 ^ 8) pixels -> 0 <= nth k pixels 0 < 2 ^ 8.
Proof.
  intros H. destruct (Nat.lt_ge_cases k (length pixels)) as [Hk|Hk].
  - rewrite Forall_forall in H. apply H. apply nth_In. exact Hk.
  - rewrite nth_overflow by exact Hk. zlia.
Qed.

Lemma tile_halfword_value (pixels : list Z) (j : nat) :
  Forall (fun p => 0 <= p < 2 ^ 8) pixels ->
  tile_halfword pixels j = nth (j * 2) pixels 0 + nth (j * 2 + 1) pixels 0 * 2 ^ 8.
Proof.
  intros H. unfold tile_halfword.
  pose proof (nth_byte pixels (j * 2) H) as B0.
  pose proof (nth_byte pixels (j * 2 + 1) H) as B1.
  rewrite (u16_small (nth (j * 2) pixels 0)), (u16_small (nth (j * 2 + 1) pixels 0)) by zlia.
  rewrite Z.shiftl_mul_pow2 by lia. rewrite u16_small by zlia.
  apply lor_add; zlia.
Qed.

(** The store loop shared by both tile writers puts byte [i] of [pixels]
    at [base + i]. *)
Lemma run_tile_bytes (pixels : list Z) (base : Z) (n : nat) (m : mem) (i : nat) :
  Forall (fun p => 0 <= p < 2 ^ 8) pixels -> (i < 2 * n)%nat ->
  run (map (fun j => (Addr (base + Z.of_nat j * 2), tile_halfword pixels j)) (seq 0 n)) m
      (base + Z.of_nat i) = nth i pixels 0.
Proof.
  intros Hp Hi.
  set (ws := map (fun j => (Addr (base + Z.of_nat j * 2), tile_halfword pixels j)) (seq 0 n)).
  assert (Hin : forall j, (j < n)%nat ->
            In (Addr (base + Z.of_nat j * 2), tile_halfword pixels j) ws).
  { intros j Hj. apply in_map_iff. exists j. split; [reflexivity | apply in_seq; lia]. }
  assert (Hcl : forall j, (j < n)%nat ->
            clear_or_same ws (base + Z.of_nat j * 2) (tile_halfword pixels j)).
  { intros j Hj b w Hbw. apply in_map_iff in Hbw as [j' [E Hj']].
    injection E as <- <-. apply in_seq in Hj'.
    destruct (Nat.eq_dec j' j) as [->|Hne]; [left; split; reflexivity | right; lia]. }
  destruct (Nat.Even_or_Odd i) as [[j ->]|[j ->]].
  all: assert (Hj : (j < n)%nat) by lia.
  all: destruct (run_in ws m _ _ (Hin j Hj) (Hcl j Hj)) as [E0 E1].
  all: pose proof (nth_byte pixels (j * 2) Hp) as B0.
  all: pose proof (nth_byte pixels (j * 2 + 1) Hp) as B1.
  all: rewrite tile_halfword_value in E0, E1 by exact Hp.
  - replace (base + Z.of_nat (2 * j)) with (base + Z.of_nat j * 2) by lia.
    rewrite E0. replace (2 * j)%nat with (j * 2)%nat by lia.
    change 255 with (Z.ones 8). rewrite Z.land_ones by lia. zlia.
  - replace (base + Z.of_nat (2 * j + 1)) with (base + Z.of_nat j * 2 + 1) by lia.
    rewrite E1. replace (2 * j + 1)%nat with (j * 2 + 1)%nat by lia.
    change 255 with (Z.ones 8).
    rewrite Z.land_ones, Z.shiftr_div_pow2 by lia. zlia.
Qed.

Lemma map_seq_nth (f : nat -> Z) (l : list Z) (k : nat) :
  length l = k -> (forall i, (i < k)%nat -> f i = nth i l 0) -> map f (seq 0 k) = l.
Proof.
  intros Hlen Hf.
  apply (nth_ext _ _ 0 0); [rewrite length_map, length_seq; lia|].
  intros i Hi. rewrite length_map, length_seq in Hi.
  rewrite (nth_indep _ 0 (f 0%nat)) by (rewrite length_map, length_seq; lia).
  rewrite map_nth, seq_nth by lia. apply Hf. exact Hi.
Qed.

Lemma decode_run_tile (pixels : list Z) (base : Z) (n : nat) (m : mem) :
  Forall (fun p => 0 <= p < 2 ^ 8) pixels -> length pixels = (2 * n)%nat ->
  decode_tile
    (run (map (fun j => (Addr (base + Z.of_nat j * 2), tile_halfword pixels j)) (seq 0 n)) m)
    base (2 * n) = pixels.
Proof.
  intros Hp Hlen. unfold decode_tile.
  apply map_seq_nth; [exact Hlen|].
  intros i Hi. apply run_tile_bytes; assumption.
Qed.

(** C5: [DefineTile4bpp] stores its 32-byte buffer verbatim at
    [charBlock*16384 + tileIndex*32] of VRAM, and [DefineTile8bpp] its 64-byte
    buffer at [charBlock*16384 + tileIndex*64]: reading the slot back yields
    the buffer. *)
Theorem DefineTile_roundtrip :
  (forall cb ti pixels m,
     0 <= cb <= 3 -> 0 <= ti <= 511 ->
     length pixels = 32%nat -> Forall (fun p => 0 <= p < 2 ^ 8) pixels ->
     decode_tile (run (DefineTile4bpp cb ti pixels) m)
                 (memVRAM + cb * 16384 + ti * 32) 32 = pixels) /\
  (forall cb ti pixels m,
     0 <= cb <= 3 -> 0 <= ti <= 511 ->
     length pixels = 64%nat -> Forall (fun p => 0 <= p < 2 ^ 8) pixels ->
     decode_tile (run (DefineTile8bpp cb ti pixels) m)
                 (memVRAM + cb * 16384 + ti * 64) 64 = pixels).
Proof.
  split; intros cb ti pixels m Hcb Hti Hlen Hp.
  - exact (decode_run_tile pixels _ 16 m Hp Hlen).
  - exact (decode_run_tile pixels _ 32 m Hp Hlen).
Qed.

Definition sample_pixels : list Z := map (fun i => Z.of_nat i * 7 mod 256) (seq 0 64).

Lemma DefineTile_roundtrip_witness :
  (0 <= 2 <= 3 /\ 0 <= 300 <= 511 /\ length (firstn 32 sample_pixels) = 32%nat /\
   Forall (fun p => 0 <= p < 2 ^ 8) (firstn 32 sample_pixels)) /\
  decode_tile (run (DefineTile4bpp 2 300 (firstn 32 sample_pixels)) (fun _ => 0))
              (memVRAM + 2 * 16384 + 300 * 32) 32 = firstn 32 sample_pixels.
Proof.
  assert (Hp : Forall (fun p => 0 <= p < 2 ^ 8) (firstn 32 sample_pixels))
    by (vm_compute; repeat constructor; discriminate).
  split; [split; [lia | split; [lia | split; [reflexivity | exact Hp]]]|].
  apply (proj1 DefineTile_roundtrip); [lia | lia | reflexivity | exact Hp].
Defined.

(** ** ConfigureLayers *)

Lemma layer_bit (l n : Z) :
  0 <= l <= 3 ->
  Z.testbit (u16 (Z.shiftl 1 (8 + l))) n = (8 <=? n) && (n <=? 11) && (n - 8 =? l).
Proof.
  intros Hl.
  assert (E : u16 (Z.shiftl 1 (8 + l)) = 2 ^ (8 + l)).
  { rewrite Z.shiftl_1_l. apply u16_small. split; [apply Z.pow_nonneg; lia|].
    apply Z.pow_lt_mono_r; lia. }
  rewrite E.
  destruct (Z.ltb_spec n 0) as [Hn|Hn].
  - rewrite Z.testbit_neg_r by exact Hn.
    destruct (Z.leb_spec 8 n); [lia|reflexivity].
  - rewrite Z.pow2_bits_eqb by lia.
    destruct (Z.eqb_spec (8 + l) n), (Z.leb_spec 8 n), (Z.leb_spec n 11), (Z.eqb_spec (n - 8) l);
      cbn; first [reflexivity | exfalso; lia].
Qed.

Lemma ConfigureLayers_fold (layers : list Z) (acc n : Z) :
  Forall (fun l => 0 <= l <= 3) layers ->
  Z.testbit (fold_left (fun bits l => Z.lor bits (u16 (Z.shiftl 1 (8 + l)))) layers acc) n =
  Z.testbit acc n || ((8 <=? n) && (n <=? 11) && existsb (Z.eqb (n - 8)) layers).
Proof.
  revert acc. induction layers as [|l layers IH]; intros acc Hf.
  - cbn [fold_left existsb].
    destruct (Z.testbit acc n), (8 <=? n), (n <=? 11); reflexivity.
  - inversion Hf as [|? ? Hl Hf']; subst.
    cbn [fold_left existsb]. rewrite IH by exact Hf'.
    rewrite Z.lor_spec, layer_bit by exact Hl.
    destruct (Z.testbit acc n), (8 <=? n), (n <=? 11), (n - 8 =? l),
      (existsb (Z.eqb (n - 8)) layers); reflexivity.
Qed.

(** C7: for a list of layers drawn from Layer0..Layer3, [ConfigureLayers]
    performs one store, to DISPCNT, of a value whose bit [n] is set exactly
    when [8 <= n <= 11] and layer [n - 8] occurs in the list; every other bit,
    in particular the mode bits 0-2, is zero. *)
Theorem ConfigureLayers_enables_exactly (layers : list Z) :
  Forall (fun l => 0 <= l <= 3) layers ->
  exists v, ConfigureLayers layers = [(DISPCNT, v)] /\
    forall n, Z.testbit v n = (8 <=? n) && (n <=? 11) && existsb (Z.eqb (n - 8)) layers.
Proof.
  intros Hf. eexists. split; [reflexivity|].
  intros n. rewrite ConfigureLayers_fold by exact Hf.
  rewrite Z.testbit_0_l. reflexivity.
Qed.

Lemma ConfigureLayers_enables_exactly_witness :
  Forall (fun l => 0 <= l <= 3) [Layer0; Layer2] /\
  exists v, ConfigureLayers [Layer0; Layer2] = [(DISPCNT, v)] /\
    forall n, Z.testbit v n = (8 <=? n) && (n <=? 11) && existsb (Z.eqb (n - 8)) [Layer0; Layer2].
Proof.
  assert (Hf : Forall (fun l => 0 <= l <= 3) [Layer0; Layer2])
    by (repeat constructor; unfold Layer0, Layer2; lia).
  split; [exact Hf|]. apply ConfigureLayers_enables_exactly. exact Hf.
Defined.

(** ** SetScroll *)

(** C8: for a layer in Layer0..Layer3, [SetScroll] stores [x mod 512] to the
    layer's horizontal and [y mod 512] to its vertical scroll register (the
    9-bit mask is reduction modulo 512). *)
Theorem SetScroll_mod512 (layer x y : Z) :
  0 <= layer <= 3 ->
  SetScroll layer x y = [(BGHOFS layer, x mod 512); (BGVOFS layer, y mod 512)].
Proof.
  intros Hl. unfold SetScroll.
  change 511 with (Z.ones 9). rewrite !Z.land_ones by lia.
  change (2 ^ 9) with 512.
  unfold Layer0, Layer1, Layer2, Layer3.
  destruct (Z.eqb_spec layer 0) as [->|H0]; [reflexivity|].
  destruct (Z.eqb_spec layer 1) as [->|H1]; [reflexivity|].
  destruct (Z.eqb_spec layer 2) as [->|H2]; [reflexivity|].
  destruct (Z.eqb_spec layer 3) as [->|H3]; [reflexivity|].
  lia.
Qed.

Lemma SetScroll_mod512_witness :
  0 <= Layer1 <= 3 /\
  SetScroll Layer1 1000 65535 = [(BGHOFS Layer1, 1000 mod 512); (BGVOFS Layer1, 65535 mod 512)].
Proof.
  split; [unfold Layer1; lia|].
  apply SetScroll_mod512. unfold Layer1. lia.
Defined.

(** ** RGB and SetPaletteColor *)

Lemma RGB_value (r g b : Z) :
  0 <= r <= 31 -> 0 <= g <= 31 -> 0 <= b <= 31 ->
  RGB r g b = r + g * 2 ^ 5 + b * 2 ^ 10.
Proof.
  intros Hr Hg Hb. unfold RGB.
  rewrite (u16_small r), (u16_small g), (u16_small b) by zlia.
  rewrite !Z.shiftl_mul_pow2 by lia.
  rewrite (u16_small (g * 2 ^ 5)), (u16_small (b * 2 ^ 10)) by zlia.
  rewrite (lor_add r g 5) by zlia.
  rewrite (lor_add (r + g * 2 ^ 5) b 10) by zlia.
  reflexivity.
Qed.

Lemma SetPaletteColor_store (palette index color : Z) :
  SetPaletteColor palette index color =
  [(Addr (memPAL + 2 * (palette * 16 + index)), color)].
Proof.
  unfold SetPaletteColor.
  replace (memPAL + palette * 32 + index * 2)
    with (memPAL + 2 * (palette * 16 + index)) by lia.
  reflexivity.
Qed.

(** C9: for components [r], [g], [b] in 0..31, [RGB r g b] is a 16-bit word
    with red in bits 0-4, green in bits 5-9, blue in bits 10-14 and bit 15
    clear; [SetPaletteColor palette index color] is a single store of [color]
    at palette-RAM halfword index [palette*16 + index], and reading that
    halfword back yields the stored color word. *)
Theorem RGB_SetPaletteColor_layout (r g b palette index : Z) (m : mem) :
  0 <= r <= 31 -> 0 <= g <= 31 -> 0 <= b <= 31 ->
  let c := RGB r g b in
  0 <= c < 2 ^ 16 /\
  Z.land c 31 = r /\ Z.land (Z.shiftr c 5) 31 = g /\ Z.land (Z.shiftr c 10) 31 = b /\
  Z.testbit c 15 = false /\
  SetPaletteColor palette index c = [(Addr (memPAL + 2 * (palette * 16 + index)), c)] /\
  read16 (run (SetPaletteColor palette index c) m) (memPAL + 2 * (palette * 16 + index)) = c.
Proof.
  intros Hr Hg Hb c.
  assert (Ec : c = r + g * 2 ^ 5 + b * 2 ^ 10) by (apply RGB_value; assumption).
  clearbody c.
  assert (Hc : 0 <= c < 2 ^ 16) by (rewrite Ec; zlia).
  change 31 with (Z.ones 5).
  rewrite !Z.land_ones, !Z.shiftr_div_pow2 by lia.
  assert (Ht : Z.testbit c 15 = Z.testbit (c / 2 ^ 15) 0)
    by (rewrite Z.div_pow2_bits by lia; reflexivity).
  rewrite Ht.
  rewrite SetPaletteColor_store.
  split; [exact Hc|].
  split; [rewrite Ec; zlia|].
  split; [rewrite Ec; zlia|].
  split; [rewrite Ec; zlia|].
  split; [rewrite (Z.div_small c) by (rewrite Ec; zlia); reflexivity|].
  split; [reflexivity|].
  apply read16_run_in; [exact Hc | left; reflexivity|].
  intros a w [E|[]]. left. split; congruence.
Qed.

Lemma RGB_SetPaletteColor_layout_witness :
  (0 <= 31 <= 31 /\ 0 <= 16 <= 31 /\ 0 <= 5 <= 31) /\
  let c := RGB 31 16 5 in
  0 <= c < 2 ^ 16 /\
  Z.land c 31 = 31 /\ Z.land (Z.shiftr c 5) 31 = 16 /\ Z.land (Z.shiftr c 10) 31 = 5 /\
  Z.testbit c 15 = false /\
  SetPaletteColor 2 7 c = [(Addr (memPAL + 2 * (2 * 16 + 7)), c)] /\
  read16 (run (SetPaletteColor 2 7 c) (fun _ => 0)) (memPAL + 2 * (2 * 16 + 7)) = c.
Proof.
  split; [lia|].
  apply (RGB_SetPaletteColor_layout 31 16 5 2 7 (fun _ => 0)); lia.
Defined.

(** ** More of tiles.go *)

Ltac simpl_cmp :=
  repeat match goal with
         | |- context [?x =? ?y] =>
             first [ rewrite (proj2 (Z.eqb_eq x y)) by lia
                   | rewrite (proj2 (Z.eqb_neq x y)) by lia ]
         | |- context [?x <=? ?y] =>
             first [ rewrite (proj2 (Z.leb_le x y)) by lia
                   | rewrite (proj2 (Z.leb_gt x y)) by lia ]
         | |- context [?x <? ?y] =>
             first [ rewrite (proj2 (Z.ltb_lt x y)) by lia
                   | rewrite (proj2 (Z.ltb_ge x y)) by lia ]
         end; cbn [andb orb negb].

Lemma run_app (ws1 ws2 : list write) (m : mem) :
  run (ws1 ++ ws2) m = run ws2 (run ws1 m).
Proof. unfold run. apply fold_left_app. Qed.

Lemma lor_pow2 (a k : Z) : 0 <= k -> 0 <= a < 2 ^ k -> Z.lor a (2 ^ k) = a + 2 ^ k.
Proof.
  intros Hk Ha. pose proof (lor_add a 1 k Hk Ha ltac:(lia)) as E.
  rewrite Z.mul_1_l in E. exact E.
Qed.

Lemma layer_bit_u16 (l n : Z) :
  0 <= l ->
  Z.testbit (u16 (Z.shiftl 1 (8 + l))) n = (8 <=? n) && (n <=? 15) && (n - 8 =? l).
Proof.
  intros Hl. unfold u16. rewrite Z.shiftl_1_l.
  destruct (Z.ltb_spec n 0) as [Hn|Hn].
  - rewrite Z.testbit_neg_r by exact Hn.
    destruct (Z.leb_spec 8 n); [lia|reflexivity].
  - destruct (Z.ltb_spec n 16) as [H16|H16].
    + rewrite Z.mod_pow2_bits_low by lia. rewrite Z.pow2_bits_eqb by lia.
      destruct (Z.eqb_spec (8 + l) n), (Z.leb_spec 8 n), (Z.leb_spec n 15),
        (Z.eqb_spec (n - 8) l); cbn; first [reflexivity | exfalso; lia].
    + rewrite Z.mod_pow2_bits_high by lia.
      destruct (Z.leb_spec n 15); [lia|]. destruct (8 <=? n); reflexivity.
Qed.

Lemma ConfigureLayers_fold_u16 (layers : list Z) (acc n : Z) :
  Forall (fun l => 0 <= l) layers ->
  Z.testbit (fold_left (fun bits l => Z.lor bits (u16 (Z.shiftl 1 (8 + l)))) layers acc) n =
  Z.testbit acc n || ((8 <=? n) && (n <=? 15) && existsb (Z.eqb (n - 8)) layers).
Proof.
  revert acc. induction layers as [|l layers IH]; intros acc Hf.
  - cbn [fold_left existsb].
    destruct (Z.testbit acc n), (8 <=? n), (n <=? 15); reflexivity.
  - inversion Hf as [|? ? Hl Hf']; subst.
    cbn [fold_left existsb]. rewrite IH by exact Hf'.
    rewrite Z.lor_spec, layer_bit_u16 by exact Hl.
    destruct (Z.testbit acc n), (8 <=? n), (n <=? 15), (n - 8 =? l),
      (existsb (Z.eqb (n - 8)) layers); reflexivity.
Qed.

(** Extra: [ConfigureLayers] on any non-negative layer values (a [Layer] is a
    [uint8]) stores to DISPCNT a value whose bit [n] is set exactly when
    [8 <= n <= 15] and [n - 8] occurs in the list: values 4..7 set DISPCNT bits
    12..15 (not background enables), values of 8 or more are shifted out of
    the [uint16] and change nothing, and order and repetition do not matter. *)
Theorem ConfigureLayers_any_values (layers : list Z) :
  Forall (fun l => 0 <= l) layers ->
  exists v, ConfigureLayers layers = [(DISPCNT, v)] /\
    forall n, Z.testbit v n = (8 <=? n) && (n <=? 15) && existsb (Z.eqb (n - 8)) layers.
Proof.
  intros Hf. eexists. split; [reflexivity|].
  intros n. rewrite ConfigureLayers_fold_u16 by exact Hf.
  rewrite Z.testbit_0_l. reflexivity.
Qed.

Lemma ConfigureLayers_any_values_witness :
  Forall (fun l => 0 <= l) [1; 5; 9; 1] /\
  exists v, ConfigureLayers [1; 5; 9; 1] = [(DISPCNT, v)] /\
    forall n, Z.testbit v n = (8 <=? n) && (n <=? 15) && existsb (Z.eqb (n - 8)) [1; 5; 9; 1].
Proof.
  assert (Hf : Forall (fun l => 0 <= l) [1; 5; 9; 1]) by (repeat constructor; lia).
  split; [exact Hf|]. apply ConfigureLayers_any_values. exact Hf.
Defined.

(** Extra: with every field in its range, [SetupLayer] stores to the layer's
    BGxCNT register the value with the priority in bits 0-1, the character
    block in bits 2-3, the color mode in bit 7, the screen block in bits 8-12
    and the map size in bits 14-15 (mosaic and wrap bits clear). *)
Theorem SetupLayer_fields (layer charBlock screenBlock mode size priority : Z) :
  0 <= layer <= 3 -> 0 <= priority < 4 -> 0 <= charBlock < 4 -> 0 <= mode < 2 ->
  0 <= screenBlock < 32 -> 0 <= size < 4 ->
  SetupLayer layer charBlock screenBlock mode size priority =
  [(BGCNT layer, priority + charBlock * 2 ^ 2 + mode * 2 ^ 7 + screenBlock * 2 ^ 8
                 + size * 2 ^ 14)].
Proof.
  intros Hl Hp Hc Hm Hs Hz. unfold SetupLayer.
  unfold BGCNT_CHAR_BASE_Pos, BGCNT_COLORS_Pos, BGCNT_BASE_Pos, BGCNT_SIZE_Pos.
  rewrite (u16_small priority), (u16_small charBlock), (u16_small mode),
    (u16_small screenBlock), (u16_small size) by zlia.
  rewrite !Z.shiftl_mul_pow2 by lia.
  rewrite (u16_small (charBlock * 2 ^ 2)), (u16_small (mode * 2 ^ 7)),
    (u16_small (screenBlock * 2 ^ 8)), (u16_small (size * 2 ^ 14)) by zlia.
  rewrite (lor_add priority charBlock 2) by zlia.
  rewrite (lor_add (priority + charBlock * 2 ^ 2) mode 7) by zlia.
  rewrite (lor_add (priority + charBlock * 2 ^ 2 + mode * 2 ^ 7) screenBlock 8) by zlia.
  rewrite (lor_add (priority + charBlock * 2 ^ 2 + mode * 2 ^ 7 + screenBlock * 2 ^ 8)
             size 14) by zlia.
  unfold Layer0, Layer1, Layer2, Layer3.
  destruct (Z.eqb_spec layer 0) as [->|H0]; [reflexivity|].
  destruct (Z.eqb_spec layer 1) as [->|H1]; [reflexivity|].
  destruct (Z.eqb_spec layer 2) as [->|H2]; [reflexivity|].
  destruct (Z.eqb_spec layer 3) as [->|H3]; [reflexivity|].
  lia.
Qed.

Lemma SetupLayer_fields_witness :
  (0 <= Layer1 <= 3 /\ 0 <= 1 < 4 /\ 0 <= kbCharBlock < 4 /\ 0 <= Colors16 < 2 /\
   0 <= kbBgBlock < 32 /\ 0 <= Size32x32 < 4) /\
  SetupLayer Layer1 kbCharBlock kbBgBlock Colors16 Size32x32 1 =
  [(BGCNT Layer1, 1 + kbCharBlock * 2 ^ 2 + Colors16 * 2 ^ 7 + kbBgBlock * 2 ^ 8
                  + Size32x32 * 2 ^ 14)].
Proof.
  unfold Layer1, kbCharBlock, Colors16, kbBgBlock, Size32x32.
  split; [lia|]. apply SetupLayer_fields; lia.
Defined.



Lemma Addr_pair_inj (a b v w : Z) : (Addr a, w) = (Addr b, v) -> a = b.
Proof. intros E. injection E as E1 _. exact E1. Qed.

Lemma u16_shiftl12 (p : Z) : u16 (Z.shiftl (u16 p) 12) = (p mod 16) * 2 ^ 12.
Proof. unfold u16. rewrite Z.shiftl_mul_pow2 by lia. zlia. Qed.

(** Extra: [SetTile] keeps only the low four bits of [palette]: the [uint16]
    shift [palette << 12] drops the rest, so palette [p] and palette
    [p mod 16] give the same store. *)
Theorem SetTile_palette_mod16 (sb x y ti pal : Z) (flipH flipV : bool) :
  SetTile sb x y ti pal flipH flipV = SetTile sb x y ti (pal mod 16) flipH flipV.
Proof.
  unfold SetTile, setTileEntry. rewrite !u16_shiftl12. rewrite Z.mod_mod by lia.
  reflexivity.
Qed.



(** Extra: tile indices are not checked against the block capacity: tile
    [tileIndex + 512] of a character block is 4bpp tile [tileIndex] of the next
    block, and tile [tileIndex + 256] is 8bpp tile [tileIndex] of the next
    block. *)
Theorem DefineTile_index_carry (charBlock tileIndex : Z) (pixels : list Z) :
  DefineTile4bpp charBlock (tileIndex + 512) pixels =
    DefineTile4bpp (charBlock + 1) tileIndex pixels /\
  DefineTile8bpp charBlock (tileIndex + 256) pixels =
    DefineTile8bpp (charBlock + 1) tileIndex pixels.
Proof.
  unfold DefineTile4bpp, DefineTile8bpp. cbv zeta. split.
  - replace (memVRAM + charBlock * 16384 + (tileIndex + 512) * 32)
      with (memVRAM + (charBlock + 1) * 16384 + tileIndex * 32) by lia.
    reflexivity.
  - replace (memVRAM + charBlock * 16384 + (tileIndex + 256) * 64)
      with (memVRAM + (charBlock + 1) * 16384 + tileIndex * 64) by lia.
    reflexivity.
Qed.

(** ** sound.go *)

(** Extra: with its arguments in range, [PlayNote] stores to SOUND2CNT_L the
    duration in bits 0-5, the duty in bits 6-7 and the volume in bits 12-15
    (envelope step 0: the volume is held), then to SOUND2CNT_H the frequency
    in bits 0-10, the length flag in bit 14 exactly when the duration is
    non-zero, and the restart bit 15. *)
Theorem PlayNote_fields (frequency duty volume duration : Z) :
  0 <= frequency < 2 ^ 11 -> 0 <= duty < 4 -> 0 <= volume < 16 -> 0 <= duration < 64 ->
  PlayNote frequency duty volume duration =
  [(SOUND2_CNT_L, duration + duty * 2 ^ 6 + volume * 2 ^ 12);
   (SOUND2_CNT_H, frequency + (if 0 <? duration then 2 ^ 14 else 0) + 2 ^ 15)].
Proof.
  intros Hf Hd Hv Hl. unfold PlayNote.
  rewrite (u16_small duration) by zlia.
  rewrite !Z.shiftl_mul_pow2 by lia.
  rewrite (u16_small (duty * 2 ^ 6)), (u16_small (volume * 2 ^ 12)) by zlia.
  rewrite (lor_add duration duty 6) by zlia.
  rewrite (lor_add (duration + duty * 2 ^ 6) volume 12) by zlia.
  rewrite !Z.mul_1_l.
  destruct (Z.ltb_spec 0 duration).
  - rewrite (lor_pow2 frequency 14) by zlia.
    rewrite (lor_pow2 (frequency + 2 ^ 14) 15) by zlia. reflexivity.
  - rewrite (lor_pow2 frequency 15) by zlia. rewrite Z.add_0_r. reflexivity.
Qed.

Lemma PlayNote_fields_witness :
  (0 <= 1800 < 2 ^ 11 /\ 0 <= 0 < 4 /\ 0 <= 6 < 16 /\ 0 <= 57 < 64) /\
  PlayNote 1800 0 6 57 =
  [(SOUND2_CNT_L, 57 + 0 * 2 ^ 6 + 6 * 2 ^ 12);
   (SOUND2_CNT_H, 1800 + (if 0 <? 57 then 2 ^ 14 else 0) + 2 ^ 15)].
Proof. split; [lia|]. apply PlayNote_fields; lia. Defined.

(** Extra: with volumes 0..7, [EnableSound] sets the master enable (bit 7 of
    SOUNDCNT_X), then SOUNDCNT_L with the right volume in bits 0-2, the left
    volume in bits 4-6 and channel 2 enabled on both sides (bits 9 and 13),
    then SOUNDCNT_H to 2 (PSG at 100%); [DisableSound] clears SOUNDCNT_X. *)
Theorem EnableSound_fields (leftVolume rightVolume : Z) :
  0 <= leftVolume < 8 -> 0 <= rightVolume < 8 ->
  EnableSound leftVolume rightVolume =
  [(SOUND_CNT_X, 2 ^ 7);
   (SOUND_CNT_L, rightVolume + leftVolume * 2 ^ 4 + 2 ^ 9 + 2 ^ 13);
   (SOUND_CNT_H, 2)] /\
  DisableSound = [(SOUND_CNT_X, 0)].
Proof.
  intros Hl Hr. split; [|reflexivity]. unfold EnableSound.
  rewrite !Z.shiftl_mul_pow2 by lia. rewrite !Z.mul_1_l.
  rewrite (u16_small (leftVolume * 2 ^ 4)) by zlia.
  rewrite (lor_add rightVolume leftVolume 4) by zlia.
  rewrite (lor_pow2 (rightVolume + leftVolume * 2 ^ 4) 9) by zlia.
  rewrite (lor_pow2 (rightVolume + leftVolume * 2 ^ 4 + 2 ^ 9) 13) by zlia.
  reflexivity.
Qed.

Lemma EnableSound_fields_witness :
  (0 <= 7 < 8 /\ 0 <= 7 < 8) /\
  EnableSound 7 7 =
  [(SOUND_CNT_X, 2 ^ 7); (SOUND_CNT_L, 7 + 7 * 2 ^ 4 + 2 ^ 9 + 2 ^ 13); (SOUND_CNT_H, 2)] /\
  DisableSound = [(SOUND_CNT_X, 0)].
Proof. split; [lia|]. apply EnableSound_fields; lia. Defined.

(** ** The keyboard example *)

Lemma u8_range (x : Z) : 0 <= u8 x < 2 ^ 8.
Proof. unfold u8. apply Z.mod_pos_bound. lia. Qed.

Lemma keyTile_range (r c : Z) :
  0 <= keyTileX r c < 2 ^ 8 /\ 0 <= keyTileY r < 2 ^ 8.
Proof.
  unfold keyTileX, keyTileY. split; [|apply u8_range].
  destruct (r =? 0); [|destruct (r =? 1)]; apply u8_range.
Qed.

Lemma validKey_spec (r c : Z) :
  validKey r c = true <->
  (r = 0 /\ 0 <= c < 10) \/ (r = 1 /\ 0 <= c < 9) \/ (r = 2 /\ 0 <= c < 7).
Proof.
  unfold validKey, rowLen.
  destruct (Z.ltb_spec r 0) as [Hr|Hr]; [split; [discriminate|lia]|].
  assert (r = 0 \/ r = 1 \/ r = 2 \/ 3 <= r) as [->|[->|[->|H3]]] by lia;
    try (simpl; rewrite andb_true_iff, Z.leb_le, Z.ltb_lt; lia).
  replace (nth_error layout (Z.to_nat r)) with (@None (list string))
    by (symmetry; apply nth_error_None; cbn; lia).
  split; [discriminate|lia].
Qed.

Lemma keyTile_valid (r c : Z) :
  validKey r c = true ->
  0 <= r <= 2 /\ 0 <= c /\ keyTileY r = 13 + 2 * r /\
  ((r = 0 /\ c < 10 /\ keyTileX r c = 5 + 2 * c) \/
   (r = 1 /\ c < 9 /\ keyTileX r c = 6 + 2 * c) \/
   (r = 2 /\ c < 7 /\ keyTileX r c = 8 + 2 * c)).
Proof.
  intros H. apply validKey_spec in H. unfold keyTileX, keyTileY, kbTileY0.
  destruct H as [[-> Hc]|[[-> Hc]|[-> Hc]]];
    rewrite !u8_small by zlia; simpl_cmp; lia.
Qed.

Lemma key_cell_inj (r c dx dy r' c' dx' dy' : Z) :
  validKey r c = true -> validKey r' c' = true ->
  0 <= dx <= 1 -> 0 <= dy <= 1 -> 0 <= dx' <= 1 -> 0 <= dy' <= 1 ->
  keyTileX r c + dx = keyTileX r' c' + dx' -> keyTileY r + dy = keyTileY r' + dy' ->
  r = r' /\ c = c' /\ dx = dx' /\ dy = dy'.
Proof.
  intros H H' ? ? ? ? Ex Ey.
  apply keyTile_valid in H. apply keyTile_valid in H'. lia.
Qed.

Lemma inKeyBlock_key (r c r' c' dx dy : Z) :
  validKey r c = true -> validKey r' c' = true -> 0 <= dx <= 1 -> 0 <= dy <= 1 ->
  inKeyBlock r' c' (keyTileX r c + dx) (keyTileY r + dy) = (r =? r') && (c =? c').
Proof.
  intros H H' Hdx Hdy. unfold inKeyBlock.
  destruct ((r =? r') && (c =? c')) eqn:E.
  - apply andb_true_iff in E as [E1 E2]. apply Z.eqb_eq in E1, E2. subst.
    simpl_cmp. reflexivity.
  - destruct ((keyTileX r' c' <=? keyTileX r c + dx) &&
              (keyTileX r c + dx <=? keyTileX r' c' + 1) &&
              (keyTileY r' <=? keyTileY r + dy) &&
              (keyTileY r + dy <=? keyTileY r' + 1)) eqn:F; [|reflexivity].
    exfalso. rewrite !andb_true_iff, !Z.leb_le in F.
    destruct (key_cell_inj r c dx dy r' c' (keyTileX r c + dx - keyTileX r' c')
                (keyTileY r + dy - keyTileY r')) as [-> [-> _]]; try assumption; try lia.
Qed.

Lemma key_in_allKeys (r c : Z) : validKey r c = true -> In (r, c) allKeys.
Proof.
  intros H. apply validKey_spec in H. unfold allKeys. apply in_flat_map.
  destruct H as [[-> Hc]|[[-> Hc]|[-> Hc]]]; [exists 0%nat | exists 1%nat | exists 2%nat];
    (split; [apply in_seq; simpl; lia|]);
    apply in_map_iff; exists (Z.to_nat c); (split; [f_equal; lia | apply in_seq; simpl; lia]).
Qed.

Lemma onKey_false (cx cy r c : Z) :
  onKey cx cy = false -> validKey r c = true -> inKeyBlock r c cx cy = false.
Proof.
  intros H Hk. destruct (inKeyBlock r c cx cy) eqn:E; [|reflexivity].
  unfold onKey in H.
  assert (existsb (fun k => inKeyBlock (fst k) (snd k) cx cy) allKeys = true)
    by (apply existsb_exists; exists (r, c); split; [apply key_in_allKeys; exact Hk | exact E]).
  congruence.
Qed.

Lemma read16_SetTile_cell (sb x y t p sb' cx cy : Z) (M : mem) :
  0 <= x < 32 -> 0 <= y < 32 -> 0 <= cx < 32 -> 0 <= cy < 32 -> 0 <= t < 2 ^ 16 ->
  read16 (run (SetTile sb x y t p false false) M) (vram_cell_addr sb' cx cy) =
  if (sb' =? sb) && (cx =? x) && (cy =? y) then setTileEntry t p false false
  else read16 M (vram_cell_addr sb' cx cy).
Proof.
  intros Hx Hy Hcx Hcy Ht. rewrite SetTile_store. cbn [run fold_left step].
  unfold read16, store16. cbv beta.
  destruct ((sb' =? sb) && (cx =? x) && (cy =? y)) eqn:E.
  - rewrite !andb_true_iff, !Z.eqb_eq in E. destruct E as [[-> ->] ->].
    simpl_cmp. apply halfword_join. apply setTileEntry_lt. exact Ht.
  - assert (Hne : sb' <> sb \/ cx <> x \/ cy <> y)
      by (destruct (Z.eqb_spec sb' sb), (Z.eqb_spec cx x), (Z.eqb_spec cy y);
          cbn in E; try discriminate; tauto).
    unfold vram_cell_addr. simpl_cmp. reflexivity.
Qed.

Lemma setKeyBg_cell (r c t sb cx cy : Z) (M : mem) :
  validKey r c = true -> 0 <= cx < 32 -> 0 <= cy < 32 -> 0 <= t < 2 ^ 16 ->
  read16 (run (setKeyBg r c t) M) (vram_cell_addr sb cx cy) =
  if (sb =? kbBgBlock) && inKeyBlock r c cx cy then setTileEntry t 0 false false
  else read16 M (vram_cell_addr sb cx cy).
Proof.
  intros Hk Hx Hy Ht. pose proof (keyTile_valid r c Hk) as Hg.
  unfold setKeyBg, inKeyBlock. cbv zeta.
  assert (Hx0 : 0 <= keyTileX r c /\ keyTileX r c + 1 < 32) by lia.
  assert (Hy0 : 0 <= keyTileY r /\ keyTileY r + 1 < 32) by lia.
  rewrite (u8_small (keyTileX r c + 1)), (u8_small (keyTileY r + 1)) by zlia.
  set (X := keyTileX r c) in *. set (Y := keyTileY r) in *. clearbody X Y.
  rewrite !run_app, !read16_SetTile_cell by zlia.
  destruct (Z.eqb_spec sb kbBgBlock); cbn [andb]; [|reflexivity].
  assert (cx < X \/ cx = X \/ cx = X + 1 \/ X + 1 < cx) as [Ex|[Ex|[Ex|Ex]]] by lia;
  assert (cy < Y \/ cy = Y \/ cy = Y + 1 \/ Y + 1 < cy) as [Ey|[Ey|[Ey|Ey]]] by lia;
  simpl_cmp; reflexivity.
Qed.

Lemma setKeyBg_low (r c t a : Z) (M : mem) :
  a < memVRAM + 2 * (kbBgBlock * 1024) - 1 -> run (setKeyBg r c t) M a = M a.
Proof.
  intros Ha. apply run_fresh. intros b v Hin.
  unfold setKeyBg in Hin. cbv zeta in Hin. rewrite !SetTile_store in Hin.
  pose proof (keyTile_range r c) as [Hx Hy].
  pose proof (u8_range (keyTileX r c + 1)). pose proof (u8_range (keyTileY r + 1)).
  repeat rewrite in_app_iff in Hin. cbn [In] in Hin.
  unfold vram_cell_addr in Hin.
  repeat destruct Hin as [Hin|Hin]; try contradiction;
    apply Addr_pair_inj in Hin; subst b; lia.
Qed.

Lemma decode_tile_ext (M M' : mem) (base : Z) (n : nat) :
  (forall k, 0 <= k < Z.of_nat n -> M' (base + k) = M (base + k)) ->
  decode_tile M' base n = decode_tile M base n.
Proof.
  intros H. unfold decode_tile. apply map_ext_in. intros i Hi. apply in_seq in Hi.
  apply H. lia.
Qed.

Lemma graphicsShown_setKeyBg (M : mem) (r c t : Z) :
  graphicsShown M -> graphicsShown (run (setKeyBg r c t) M).
Proof.
  unfold graphicsShown. intros (H1 & H2 & H3 & H4 & H5 & H6).
  repeat split.
  - unfold read16. rewrite !setKeyBg_low by (unfold memPAL, memVRAM, palKeyGray, kbBgBlock; lia).
    exact H1.
  - unfold read16. rewrite !setKeyBg_low by (unfold memPAL, memVRAM, palKeyHL, kbBgBlock; lia).
    exact H2.
  - unfold read16. rewrite !setKeyBg_low by (unfold memPAL, memVRAM, palLetter, kbBgBlock; lia).
    exact H3.
  - rewrite (decode_tile_ext M); [exact H4|].
    intros k Hk. apply setKeyBg_low. unfold memVRAM, tileKeyNormal, kbBgBlock. lia.
  - rewrite (decode_tile_ext M); [exact H5|].
    intros k Hk. apply setKeyBg_low. unfold memVRAM, tileKeySelect, kbBgBlock. lia.
  - intros i q Hi Hq. rewrite (decode_tile_ext M); [apply H6; assumption|].
    intros k Hk. apply setKeyBg_low. unfold memVRAM, tileLetterBase, kbBgBlock. lia.
Qed.

Lemma screenShown_move (M : mem) (pr pc nr nc : Z) :
  validKey pr pc = true -> validKey nr nc = true -> screenShown M pr pc ->
  screenShown (run (setKeyBg pr pc tileKeyNormal ++ setKeyBg nr nc tileKeySelect) M) nr nc.
Proof.
  intros Hp Hn [Hkeys Hrest]. rewrite run_app. split.
  - intros r c dx dy Hk Hdx Hdy.
    pose proof (keyTile_valid r c Hk) as Hg.
    destruct (Hkeys r c dx dy Hk Hdx Hdy) as [Hb [li [Hl Hf]]].
    rewrite !setKeyBg_cell by (first [assumption | unfold tileKeyNormal, tileKeySelect; zlia]).
    rewrite !(inKeyBlock_key r c) by assumption.
    split.
    + rewrite Z.eqb_refl, !andb_true_l.
      destruct ((r =? nr) && (c =? nc)) eqn:E1; [reflexivity|].
      destruct ((r =? pr) && (c =? pc)) eqn:E2; [reflexivity|].
      rewrite Hb; try rewrite E2; reflexivity.
    + exists li. split; [exact Hl|].
      replace (kbFgBlock =? kbBgBlock) with false by reflexivity.
      rewrite !andb_false_l. exact Hf.
  - intros cx cy Hx Hy Hon.
    rewrite !setKeyBg_cell by (first [assumption | lia | unfold tileKeyNormal, tileKeySelect; zlia]).
    rewrite (onKey_false cx cy nr nc Hon Hn), (onKey_false cx cy pr pc Hon Hp), !andb_false_r.
    apply Hrest; assumption.
Qed.

Lemma Update_valid (IsPushed : Z -> Z -> bool) (bR bL bD bU curr : Z) (s : kb_state) :
  validKey (selectedRow s) (selectedCol s) = true ->
  Update IsPushed bR bL bD bU curr s =
  let jp b := justPressed IsPushed b curr (prevButtons s) in
  let '(sr', sc', moved) :=
    navigate (jp bR) (jp bL) (jp bD) (jp bU) (selectedRow s) (selectedCol s) in
  Some (mk_kb_state sr' sc' curr (prevTileRow s) (prevTileCol s),
        if moved then PlayNote 1800 0 6 57 else []).
Proof.
  destruct s as [sr sc pb ptr ptc].
  cbn [selectedRow selectedCol prevButtons prevTileRow prevTileCol].
  intros H. apply validKey_spec in H.
  unfold Update, navigate, keysInRow. cbv beta zeta.
  cbn [selectedRow selectedCol prevButtons prevTileRow prevTileCol].
  destruct (justPressed IsPushed bR curr pb);
    [|destruct (justPressed IsPushed bL curr pb);
      [|destruct (justPressed IsPushed bD curr pb);
        [|destruct (justPressed IsPushed bU curr pb)]]];
  destruct H as [[-> Hc]|[[-> Hc]|[-> Hc]]];
  simpl;
  repeat match goal with |- context [if ?b then _ else _] => destruct b eqn:? end;
  rewrite ?Z.leb_le, ?Z.leb_gt, ?Z.ltb_lt, ?Z.ltb_ge in *;
  match goal with
  | |- Some (mk_kb_state ?a ?x _ _ _, _) = Some (mk_kb_state ?b ?y _ _ _, _) =>
      replace y with x by zlia; replace b with a by zlia; reflexivity
  end.
Qed.

Lemma navigate_valid (right left down up : bool) (sr sc : Z) :
  validKey sr sc = true ->
  let '(sr', sc', _) := navigate right left down up sr sc in validKey sr' sc' = true.
Proof.
  intros H. apply validKey_spec in H. unfold navigate, keysInRow.
  destruct right; [|destruct left; [|destruct down; [|destruct up]]];
    destruct H as [[-> Hc]|[[-> Hc]|[-> Hc]]];
    simpl; apply validKey_spec; zlia.
Qed.

Lemma Update_keeps_valid (IsPushed : Z -> Z -> bool) (bR bL bD bU curr : Z)
  (sr sc pb ptr ptc : Z) :
  validKey sr sc = true ->
  exists sr' sc' snd,
    Update IsPushed bR bL bD bU curr (mk_kb_state sr sc pb ptr ptc) =
      Some (mk_kb_state sr' sc' curr ptr ptc, snd) /\
    validKey sr' sc' = true /\ (snd = [] \/ snd = PlayNote 1800 0 6 57).
Proof.
  intros H.
  pose proof (Update_valid IsPushed bR bL bD bU curr (mk_kb_state sr sc pb ptr ptc) H) as E.
  pose proof (navigate_valid (justPressed IsPushed bR curr pb) (justPressed IsPushed bL curr pb)
                (justPressed IsPushed bD curr pb) (justPressed IsPushed bU curr pb) sr sc H) as V.
  cbv beta zeta in E. cbn [selectedRow selectedCol prevButtons prevTileRow prevTileCol] in E.
  revert E V.
  destruct (navigate (justPressed IsPushed bR curr pb) (justPressed IsPushed bL curr pb)
              (justPressed IsPushed bD curr pb) (justPressed IsPushed bU curr pb) sr sc)
    as [[sr' sc'] moved].
  intros E V. exists sr', sc', (if moved then PlayNote 1800 0 6 57 else []).
  split; [exact E|]. split; [exact V|]. destruct moved; auto.
Qed.

Lemma frames_keyboard (IsPushed : Z -> Z -> bool) (bR bL bD bU : Z) (inputs : list Z) :
  forall (s : kb_state) (M : mem),
  validKey (selectedRow s) (selectedCol s) = true ->
  prevTileRow s = selectedRow s -> prevTileCol s = selectedCol s ->
  screenShown M (selectedRow s) (selectedCol s) -> graphicsShown M ->
  exists ws snd s',
    frames IsPushed bR bL bD bU inputs s = Some (ws, snd, s') /\
    validKey (selectedRow s') (selectedCol s') = true /\
    prevTileRow s' = selectedRow s' /\ prevTileCol s' = selectedCol s' /\
    screenShown (run ws M) (selectedRow s') (selectedCol s') /\
    graphicsShown (run ws M) /\
    exists k, (k <= length inputs)%nat /\ snd = concat (repeat (PlayNote 1800 0 6 57) k).
Proof.
  induction inputs as [|curr rest IH]; intros s M Hv Hr Hc Hs Hg.
  - exists [], [], s. split; [reflexivity|].
    do 5 (split; [assumption|]). exists 0%nat. split; [lia | reflexivity].
  - destruct s as [sr sc pb ptr ptc].
    cbn [selectedRow selectedCol prevButtons prevTileRow prevTileCol] in *. subst ptr ptc.
    destruct (Update_keeps_valid IsPushed bR bL bD bU curr sr sc pb sr sc Hv)
      as (sr' & sc' & snd & HU & Hv' & Hsnd).
    cbn [frames]. rewrite HU. unfold DrawTile.
    cbn [selectedRow selectedCol prevButtons prevTileRow prevTileCol].
    destruct ((sr' =? sr) && (sc' =? sc)) eqn:E.
    + apply andb_true_iff in E as [E1 E2]. apply Z.eqb_eq in E1, E2. subst sr' sc'.
      destruct (IH (mk_kb_state sr sc curr sr sc) M) as (ws & snd' & s' & Hf & H1 & H2 & H3 & H4 & H5 & k & Hk & Hks);
        try assumption; try reflexivity.
      rewrite Hf. exists ws, (snd ++ snd'), s'.
      split; [reflexivity|]. do 5 (split; [assumption|]).
      destruct Hsnd as [->| ->].
      * exists k. split; [cbn [length]; lia | exact Hks].
      * exists (S k). split; [cbn [length]; lia|]. rewrite Hks. reflexivity.
    + set (ws1 := setKeyBg sr sc tileKeyNormal ++ setKeyBg sr' sc' tileKeySelect).
      destruct (IH (mk_kb_state sr' sc' curr sr' sc') (run ws1 M))
        as (ws & snd' & s' & Hf & H1 & H2 & H3 & H4 & H5 & k & Hk & Hks);
        cbn [selectedRow selectedCol prevButtons prevTileRow prevTileCol];
        try assumption; try reflexivity.
      * apply screenShown_move; assumption.
      * unfold ws1. rewrite run_app. apply graphicsShown_setKeyBg, graphicsShown_setKeyBg.
        exact Hg.
      * rewrite Hf. exists (ws1 ++ ws), (snd ++ snd'), s'.
        split; [reflexivity|]. rewrite run_app. do 5 (split; [assumption|]).
        destruct Hsnd as [->| ->].
        -- exists k. split; [cbn [length]; lia | exact Hks].
        -- exists (S k). split; [cbn [length]; lia|]. rewrite Hks. reflexivity.
Qed.

Lemma zlist_eqb_eq (a b : list Z) : zlist_eqb a b = true -> a = b.
Proof.
  revert b. induction a as [|x a IH]; intros [|y b] H; try discriminate; [reflexivity|].
  cbn in H. apply andb_true_iff in H as [H1 H2]. apply Z.eqb_eq in H1. subst y.
  f_equal. apply IH. exact H2.
Qed.

Lemma screenOk_sound (M : mem) (sr sc : Z) : screenOk M sr sc = true -> screenShown M sr sc.
Proof.
  unfold screenOk. rewrite andb_true_iff. intros [Hk Hr]. split.
  - intros r c dx dy Hv Hdx Hdy. rewrite forallb_forall in Hk.
    specialize (Hk (r, c) (key_in_allKeys r c Hv)). cbv beta iota in Hk.
    rewrite forallb_forall in Hk.
    assert (Hq : In (dx, dy) quads)
      by (unfold quads; assert (dx = 0 \/ dx = 1) as [-> | ->] by lia;
          assert (dy = 0 \/ dy = 1) as [-> | ->] by lia; cbn; tauto).
    specialize (Hk (dx, dy) Hq). cbv beta iota zeta in Hk.
    apply andb_true_iff in Hk as [H1 H2]. apply Z.eqb_eq in H1. split; [exact H1|].
    destruct (keyLetter r c) as [li|]; [|discriminate].
    exists li. split; [reflexivity|]. apply Z.eqb_eq. exact H2.
  - intros cx cy Hx Hy Hon. rewrite forallb_forall in Hr.
    assert (Hcy : In cy (map Z.of_nat (seq 0 20)))
      by (apply in_map_iff; exists (Z.to_nat cy); split; [lia | apply in_seq; lia]).
    specialize (Hr cy Hcy). rewrite forallb_forall in Hr.
    assert (Hcx : In cx (map Z.of_nat (seq 0 30)))
      by (apply in_map_iff; exists (Z.to_nat cx); split; [lia | apply in_seq; lia]).
    specialize (Hr cx Hcx). rewrite Hon in Hr. cbn [orb] in Hr.
    apply andb_true_iff in Hr as [H1 H2]. apply Z.eqb_eq in H1, H2. auto.
Qed.

Lemma graphicsOk_sound (M : mem) : graphicsOk M = true -> graphicsShown M.
Proof.
  unfold graphicsOk. rewrite !andb_true_iff.
  intros [[[[[H1 H2] H3] H4] H5] H6].
  apply Z.eqb_eq in H1, H2, H3. apply zlist_eqb_eq in H4, H5.
  do 5 (split; [assumption|]).
  intros i q Hi Hq. rewrite forallb_forall in H6.
  specialize (H6 i (proj2 (in_seq 26 0 i) ltac:(lia))). rewrite forallb_forall in H6.
  apply zlist_eqb_eq, H6.
  assert (q = 0 \/ q = 1 \/ q = 2 \/ q = 3) as [-> | [-> | [-> | ->]]] by lia; cbn; tauto.
Qed.

Lemma InitTiles_kb_init :
  InitTiles kb_init = Some (init_trace, mk_kb_state 0 0 65535 0 0).
Proof. vm_compute. reflexivity. Qed.

Lemma screenOk_init (m : mem) : screenOk (run init_trace m) 0 0 = true.
Proof. vm_compute. reflexivity. Qed.

Lemma graphicsOk_init (m : mem) : graphicsOk (run init_trace m) = true.
Proof. vm_compute. reflexivity. Qed.

Lemma main_frames (IsPushed : Z -> Z -> bool) (bR bL bD bU : Z) (inputs : list Z) (m : mem) :
  exists ws snd s,
    main IsPushed bR bL bD bU inputs = Some (ws, snd, s) /\
    validKey (selectedRow s) (selectedCol s) = true /\
    screenShown (run ws m) (selectedRow s) (selectedCol s) /\
    graphicsShown (run ws m) /\
    exists k, (k <= length inputs)%nat /\
      snd = EnableSound 7 7 ++ concat (repeat (PlayNote 1800 0 6 57) k).
Proof.
  unfold main. rewrite InitTiles_kb_init.
  destruct (frames_keyboard IsPushed bR bL bD bU inputs (mk_kb_state 0 0 65535 0 0)
              (run init_trace m))
    as (ws & snd & s & Hf & H1 & _ & _ & H4 & H5 & k & Hk & Hks);
    cbn [selectedRow selectedCol prevButtons prevTileRow prevTileCol];
    try reflexivity.
  - apply screenOk_sound, screenOk_init.
  - apply graphicsOk_sound, graphicsOk_init.
  - rewrite Hf. exists (init_trace ++ ws), (EnableSound 7 7 ++ snd), s.
    split; [reflexivity|]. rewrite run_app. do 3 (split; [assumption|]).
    exists k. split; [exact Hk|]. rewrite Hks. reflexivity.
Qed.

(** Extra: the 2x2 block of every key of [layout] lies inside the visible
    30x20 tile area, and no tile cell belongs to the blocks of two different
    keys (nor to two cells of one block). *)
Theorem key_blocks_on_screen (r c dx dy : Z) :
  validKey r c = true -> 0 <= dx <= 1 -> 0 <= dy <= 1 ->
  0 <= keyTileX r c + dx < 30 /\ 0 <= keyTileY r + dy < 20 /\
  (forall r' c' dx' dy', validKey r' c' = true -> 0 <= dx' <= 1 -> 0 <= dy' <= 1 ->
     keyTileX r' c' + dx' = keyTileX r c + dx -> keyTileY r' + dy' = keyTileY r + dy ->
     r' = r /\ c' = c /\ dx' = dx /\ dy' = dy).
Proof.
  intros Hk Hdx Hdy. pose proof (keyTile_valid r c Hk) as Hg.
  split; [lia|]. split; [lia|].
  intros r' c' dx' dy' Hk' Hdx' Hdy' Ex Ey.
  apply (key_cell_inj r' c' dx' dy' r c dx dy); assumption.
Qed.

Lemma key_blocks_on_screen_witness :
  (validKey 0 9 = true /\ 0 <= 1 <= 1 /\ 0 <= 1 <= 1) /\
  0 <= keyTileX 0 9 + 1 < 30 /\ 0 <= keyTileY 0 + 1 < 20 /\
  (forall r' c' dx' dy', validKey r' c' = true -> 0 <= dx' <= 1 -> 0 <= dy' <= 1 ->
     keyTileX r' c' + dx' = keyTileX 0 9 + 1 -> keyTileY r' + dy' = keyTileY 0 + 1 ->
     r' = 0 /\ c' = 9 /\ dx' = 1 /\ dy' = 1).
Proof.
  split; [split; [vm_compute; reflexivity | lia] |].
  apply key_blocks_on_screen; [vm_compute; reflexivity | lia | lia].
Defined.

(** Extra: for a key of [layout] and a tile index below 2^16, after
    [setKeyBg] every tilemap cell with coordinates in 0..31 of any screen
    block reads back the entry of that tile (palette 0, no flip) if it is one
    of the four cells of the key's block in screen block 8, and its previous
    value otherwise. *)
Theorem setKeyBg_paints_key_block (row col tile sb cx cy : Z) (M : mem) :
  validKey row col = true -> 0 <= cx < 32 -> 0 <= cy < 32 -> 0 <= tile < 2 ^ 16 ->
  read16 (run (setKeyBg row col tile) M) (vram_cell_addr sb cx cy) =
  if (sb =? kbBgBlock) && inKeyBlock row col cx cy then setTileEntry tile 0 false false
  else read16 M (vram_cell_addr sb cx cy).
Proof. apply setKeyBg_cell. Qed.

Lemma setKeyBg_paints_key_block_witness :
  (validKey 1 3 = true /\ 0 <= 13 < 32 /\ 0 <= 16 < 32 /\ 0 <= 2 < 2 ^ 16) /\
  read16 (run (setKeyBg 1 3 2) (fun _ => 0)) (vram_cell_addr 8 13 16) =
  if (8 =? kbBgBlock) && inKeyBlock 1 3 13 16 then setTileEntry 2 0 false false
  else read16 (fun _ => 0) (vram_cell_addr 8 13 16).
Proof.
  split; [split; [vm_compute; reflexivity | lia] |].
  apply setKeyBg_paints_key_block; [vm_compute; reflexivity | lia | lia | lia].
Defined.

(** Extra: from a selection that is a key of [layout], [Update] never
    panics: Right and Left move through the row cyclically, Down and Up move
    through the three rows cyclically and clamp the column to the new row's
    last key, the first just-pressed button in the order Right, Left, Down, Up
    wins, the beep [PlayNote(1800, 0, 6, 57)] is played exactly when one was
    pressed, [prevButtons] becomes the current reading, and the new selection
    is again a key of [layout]. *)
Theorem Update_navigate (IsPushed : Z -> Z -> bool) (bR bL bD bU curr : Z) (s : kb_state) :
  validKey (selectedRow s) (selectedCol s) = true ->
  let jp b := justPressed IsPushed b curr (prevButtons s) in
  let '(sr', sc', moved) :=
    navigate (jp bR) (jp bL) (jp bD) (jp bU) (selectedRow s) (selectedCol s) in
  Update IsPushed bR bL bD bU curr s =
    Some (mk_kb_state sr' sc' curr (prevTileRow s) (prevTileCol s),
          if moved then PlayNote 1800 0 6 57 else []) /\
  validKey sr' sc' = true.
Proof.
  intros H.
  pose proof (Update_valid IsPushed bR bL bD bU curr s H) as E.
  pose proof (navigate_valid
                (justPressed IsPushed bR curr (prevButtons s))
                (justPressed IsPushed bL curr (prevButtons s))
                (justPressed IsPushed bD curr (prevButtons s))
                (justPressed IsPushed bU curr (prevButtons s))
                (selectedRow s) (selectedCol s) H) as V.
  cbv beta zeta in E |- *. revert E V.
  destruct (navigate (justPressed IsPushed bR curr (prevButtons s))
              (justPressed IsPushed bL curr (prevButtons s))
              (justPressed IsPushed bD curr (prevButtons s))
              (justPressed IsPushed bU curr (prevButtons s))
              (selectedRow s) (selectedCol s)) as [[sr' sc'] moved].
  intros E V. split; assumption.
Qed.

Lemma Update_navigate_witness :
  validKey 0 9 = true /\
  let s := mk_kb_state 0 9 65535 0 9 in
  let IsPushed := fun b c => negb (Z.testbit c b) in
  let jp b := justPressed IsPushed b 65519 (prevButtons s) in
  let '(sr', sc', moved) :=
    navigate (jp 4) (jp 5) (jp 7) (jp 6) (selectedRow s) (selectedCol s) in
  Update IsPushed 4 5 7 6 65519 s =
    Some (mk_kb_state sr' sc' 65519 (prevTileRow s) (prevTileCol s),
          if moved then PlayNote 1800 0 6 57 else []) /\
  validKey sr' sc' = true.
Proof.
  split; [vm_compute; reflexivity|].
  exact (Update_navigate (fun b c => negb (Z.testbit c b)) 4 5 7 6 65519
           (mk_kb_state 0 9 65535 0 9) ltac:(vm_compute; reflexivity)).
Defined.

(** Extra: for every sequence of button readings, [main] ([InitTiles],
    [EnableSound(7, 7)], then [Update] and [DrawTile] per frame) never
    panics, the final selection is a key of [layout], and the tilemaps show
    the keyboard: the selected key's block holds the highlight tile, every
    other key's block the normal tile, each key's block in screen block 9 the
    four quarters of its letter, and every other cell of the visible 30x20
    area entry 0 in both screen blocks. *)
Theorem main_shows_keyboard (IsPushed : Z -> Z -> bool) (bR bL bD bU : Z)
  (inputs : list Z) (m : mem) :
  exists ws snd s,
    main IsPushed bR bL bD bU inputs = Some (ws, snd, s) /\
    validKey (selectedRow s) (selectedCol s) = true /\
    screenShown (run ws m) (selectedRow s) (selectedCol s).
Proof.
  destruct (main_frames IsPushed bR bL bD bU inputs m)
    as (ws & snd & s & H & H1 & H2 & _).
  exists ws, snd, s. auto.
Qed.

(** Extra: for every sequence of button readings, after [main] palette 0
    holds the three colours [InitTiles] sets (indices 1, 2, 3), tiles 1 and 2
    of character block 0 are the solid key tiles and tiles 10 + 4i + q are the
    quarters of letter i: the per-frame stores never touch them. *)
Theorem main_keeps_graphics (IsPushed : Z -> Z -> bool) (bR bL bD bU : Z)
  (inputs : list Z) (m : mem) :
  exists ws snd s,
    main IsPushed bR bL bD bU inputs = Some (ws, snd, s) /\ graphicsShown (run ws m).
Proof.
  destruct (main_frames IsPushed bR bL bD bU inputs m)
    as (ws & snd & s & H & _ & _ & H3 & _).
  exists ws, snd, s. auto.
Qed.

(** Extra: the sound stores of [main] are those of [EnableSound(7, 7)]
    followed by k copies of the beep [PlayNote(1800, 0, 6, 57)], with k at
    most the number of frames: at most one beep per frame and no other
    sound. *)
Theorem main_sound_trace (IsPushed : Z -> Z -> bool) (bR bL bD bU : Z) (inputs : list Z) :
  exists ws snd s k,
    main IsPushed bR bL bD bU inputs = Some (ws, snd, s) /\
    (k <= length inputs)%nat /\
    snd = EnableSound 7 7 ++ concat (repeat (PlayNote 1800 0 6 57) k).
Proof.
  destruct (main_frames IsPushed bR bL bD bU inputs (fun _ => 0))
    as (ws & snd & s & H & _ & _ & _ & k & Hk & Hs).
  exists ws, snd, s, k. auto.
Qed.
